(** * The StyleGAN2 renderer: a shallow embedding of [stylegan2/renderer.py]

    The generator of [renderer.py] is embedded as Rocq functions.  Tensors are
    nested lists in the layout of the source ([batch] outermost), floating
    point numbers are idealised as real numbers, Python exceptions are an
    explicit result type, the one piece of mutable state of the forward pass
    ([w_avg]) is threaded through a small state-and-exception monad, and the
    random draws of a call are an explicit argument.  Layers whose classes
    live in [commons.custom_layers] are section variables. *)

From Stdlib Require Import String Ascii DecimalString.
From Stdlib Require DecimalPos DecimalZ.
From Stdlib Require Import Reals Lra Lia List ZArith Bool Arith.
Import ListNotations.

Open Scope R_scope.

(** ** Python results *)

Inductive exn : Type :=
| IndexError            (* a Python list indexed out of range *)
| AssertionError        (* a failed [assert] *)
| ValueError            (* an assignment to a variable of another shape *)
| InvalidArgumentError. (* a TensorFlow shape or slice error *)

Inductive result (A : Type) : Type :=
| Ok (a : A)
| Raise (e : exn).
Arguments Ok {A} a.
Arguments Raise {A} e.

Definition rbind {A B : Type} (r : result A) (k : A -> result B) : result B :=
  match r with
  | Ok a => k a
  | Raise e => Raise e
  end.

Declare Scope result_scope.
Delimit Scope result_scope with result.
Notation "x <- r ;; k" := (rbind r (fun x => k))
  (at level 61, r at next level, right associativity) : result_scope.

(** ** Tensors *)

Definition vec : Type := list R.          (* shape [d] *)
Definition mat : Type := list vec.        (* shape [batch, d] *)
Definition ten3 : Type := list (list vec). (* shape [batch, n, d] *)

Definition Rsum (v : vec) : R := fold_right Rplus 0 v.

(** [tf.reduce_mean] of a rank-1 tensor. *)
Definition reduce_mean (v : vec) : R := Rsum v / INR (length v).

(** An elementwise binary operation on operands of equal length; operands of
    different lengths are a shape error. *)
Fixpoint zip_strict {A B C : Type} (f : A -> B -> result C)
  (xs : list A) (ys : list B) : result (list C) :=
  match xs, ys with
  | [], [] => Ok []
  | x :: xs', y :: ys' =>
      (c <- f x y ;; cs <- zip_strict f xs' ys' ;; Ok (c :: cs))%result
  | _, _ => Raise InvalidArgumentError
  end.

(** [t[:, k]] on a tensor of shape [batch, n, d]. *)
Fixpoint column (k : nat) (t : ten3) : result mat :=
  match t with
  | [] => Ok []
  | row :: t' =>
      match nth_error row k with
      | None => Raise InvalidArgumentError
      | Some v => (m <- column k t' ;; Ok (v :: m))%result
      end
  end.

(** The width of the rows of a tensor of shape [batch, d]; an empty batch
    has no row to read it from, and the width [d] it was built with is
    taken. *)
Definition width (d : nat) (m : mat) : nat :=
  match m with
  | [] => d
  | row :: _ => length row
  end.

(** [tf.reduce_mean(m, axis=0)] on a tensor of shape [batch, d]: one mean per
    component of the rows. *)
Definition reduce_mean_axis0 (d : nat) (m : mat) : vec :=
  map (fun j => reduce_mean (map (fun row => nth j row 0) m)) (seq 0 (width d m)).

(** The shape [batch, n, d], carried by the rows. *)
Definition has_shape3 (b n d : nat) (t : ten3) : Prop :=
  length t = b /\
  Forall (fun row => length row = n /\ Forall (fun v => length v = d) row) t.

(** ** [commons.utils.lerp] *)

(** Modelled from the spec: [lerp] is imported from [commons.utils], which is
    not part of the sources at hand.  The spec gives
    [lerp(batch_mean, w_avg, d) = d * w_avg + (1 - d) * batch_mean] and, for
    the truncation trick, [lerp(w_avg, w, coef) = w_avg + coef * (w - w_avg)]:
    linear interpolation from the first argument to the second. *)
Definition lerp (a b t : R) : R := a + (b - a) * t.

(** Modelled from the spec: [lerp] on two rank-1 tensors and a scalar
    coefficient, the formula above with the broadcasting of the tensor
    arithmetic it is written in: tensors of one width are combined component
    by component, a tensor of one component is stretched to the width of the
    other, and any other two widths are incompatible. *)
Definition lerp_vec (a b : vec) (t : R) : result vec :=
  if (length a =? length b)%nat
  then zip_strict (fun x y => Ok (lerp x y t)) a b
  else match a, b with
       | [x], _ => Ok (map (fun y => lerp x y t) b)
       | _, [y] => Ok (map (fun x => lerp x y t) a)
       | _, _ => Raise InvalidArgumentError
       end.

(** ** Mapping *)

Module Mapping.

Definition eps : R := / 100000000.

(** [x * tf.math.rsqrt(tf.reduce_mean(tf.square(x), axis=1, keepdims=True) + 1e-8)]
    on one sample. *)
Definition norm_row (x : vec) : vec :=
  let m := reduce_mean (map (fun v => v * v) x) in
  map (fun v => v * / sqrt (m + eps)) x.

Definition norm (x : mat) : mat := map norm_row x.

(** [tf.tile(x[:, np.newaxis], [1, n_broadcast, 1])] *)
Definition broadcast (n_broadcast : nat) (x : mat) : ten3 :=
  map (fun row => repeat row n_broadcast) x.

Section Layers.
(** The layers of [commons.custom_layers], as functions on a batch. *)
Variable LabelEmbedding_call : mat -> mat.
Variable Dense_call : nat -> mat -> mat.
Variable Bias_call : nat -> mat -> mat.
Variable LeakyReLU_call : nat -> mat -> mat.

Record t : Type := {
  n_mapping : nat;
  n_broadcast : nat;
  dense_layers : list (mat -> mat);
  bias_layers : list (mat -> mat);
  act_layers : list (mat -> mat)
}.

Definition init (n_mapping n_broadcast : nat) : t :=
  {| n_mapping := n_mapping;
     n_broadcast := n_broadcast;
     dense_layers := map Dense_call (seq 0 n_mapping);
     bias_layers := map Bias_call (seq 0 n_mapping);
     act_layers := map LeakyReLU_call (seq 0 n_mapping) |}.

Definition call (self : t) (inputs : mat) : ten3 :=
  let x := LabelEmbedding_call inputs in
  let x := norm x in
  let x :=
    fold_left
      (fun x '(dense, apply_bias, apply_act) => apply_act (apply_bias (dense x)))
      (combine (combine (dense_layers self) (bias_layers self)) (act_layers self))
      x in
  broadcast (n_broadcast self) x.
End Layers.

(** Root mean square of a sample. *)
Definition rms (x : vec) : R := sqrt (reduce_mean (map (fun v => v * v) x)).

End Mapping.

(** ** Synthesis *)

(** Style positions read by a forward pass are logged next to its result. *)
Definition logged (A : Type) : Type := (list nat * result A)%type.

Definition lret {A : Type} (a : A) : logged A := ([], Ok a).

Definition lbind {A B : Type} (m : logged A) (k : A -> logged B) : logged B :=
  match m with
  | (l, Ok a) => let '(l', r) := k a in ((l ++ l')%list, r)
  | (l, Raise e) => (l, Raise e)
  end.

Declare Scope logged_scope.
Delimit Scope logged_scope with logged.
Notation "x <- m ;; k" := (lbind m (fun x => k))
  (at level 61, m at next level, right associativity) : logged_scope.

(** [w_broadcasted[:, k]], logged. *)
Definition slice (w : ten3) (k : nat) : logged mat := ([k], column k w).

(** ['{:d}'.format(z)] *)
Definition format_d (z : Z) : string := DecimalString.NilZero.string_of_int (Z.to_int z).

Module Synthesis.

Record ToRGB : Type := {
  torgb_name : string;
  torgb_in_channel : Z
}.

Record SynthesisConstBlock : Type := {
  const_name : string;
  const_fmaps : Z;
  const_res : Z
}.

Record SynthesisBlock : Type := {
  block_name : string;
  block_in_channel : Z;
  block_fmaps : Z;
  block_res : Z
}.

Record t : Type := {
  w_dim : nat;
  resolutions : list Z;
  featuremaps : list Z;
  initial_block : SynthesisConstBlock;
  initial_torgb : ToRGB;
  blocks : list SynthesisBlock;
  torgbs : list ToRGB;
  upscales : list unit
}.

Definition ToRGB_init (in_channel : Z) (name : string) : ToRGB :=
  {| torgb_name := name; torgb_in_channel := in_channel |}.

Definition SynthesisConstBlock_init (fmaps res : Z) (name : string)
  : result SynthesisConstBlock :=
  if (res =? 4)%Z
  then Ok {| const_name := name; const_fmaps := fmaps; const_res := res |}
  else Raise AssertionError.

Definition SynthesisBlock_init (in_channel fmaps res : Z) (name : string)
  : SynthesisBlock :=
  {| block_name := name; block_in_channel := in_channel;
     block_fmaps := fmaps; block_res := res |}.

Definition res_name (res : Z) (suffix : string) : string :=
  (format_d res ++ "x" ++ format_d res ++ suffix)%string.

(** The loop of [Synthesis.__init__] over
    [zip(self.resolutions[1:], self.featuremaps[1:])]. *)
Fixpoint stack (prev_n_f : Z) (ladder : list (Z * Z))
  : list SynthesisBlock * list unit * list ToRGB :=
  match ladder with
  | [] => ([], [], [])
  | (res, n_f) :: ladder' =>
      let '(bs, us, ts) := stack n_f ladder' in
      (SynthesisBlock_init prev_n_f n_f res (res_name res "/block") :: bs,
       tt :: us,
       ToRGB_init n_f (res_name res "/ToRGB") :: ts)
  end.

Definition init (w_dim : nat) (resolutions featuremaps : list Z) : result t :=
  match resolutions with
  | [] => Raise IndexError
  | res :: _ =>
      match featuremaps with
      | [] => Raise IndexError
      | n_f :: _ =>
          (initial_block <- SynthesisConstBlock_init n_f res (res_name res "/const") ;;
           let initial_torgb := ToRGB_init n_f (res_name res "/ToRGB") in
           let '(bs, us, ts) := stack n_f (combine (tl resolutions) (tl featuremaps)) in
           Ok {| w_dim := w_dim; resolutions := resolutions;
                 featuremaps := featuremaps;
                 initial_block := initial_block; initial_torgb := initial_torgb;
                 blocks := bs; torgbs := ts; upscales := us |})%result
      end
  end.

Section Layers.
(** Feature maps and images are rank-4 tensors [batch, channel, h, w];
    the layers of [commons.custom_layers] act on them and are named by
    the scope path of the instance.  A [Noise] layer stands for the
    function obtained with its draw fixed. *)
Variable tensor4 : Type.
Variable ModulatedConv2D_call : string -> tensor4 -> mat -> tensor4.
Variable Noise_call : string -> tensor4 -> tensor4.
Variable Bias_call : string -> tensor4 -> tensor4.
Variable LeakyReLU_call : string -> tensor4 -> tensor4.
Variable Upscale2D_call : tensor4 -> tensor4.
Variable add : tensor4 -> tensor4 -> tensor4.
(** [tf.tile(self.const, [batch_size, 1, 1, 1])] for the block named so. *)
Variable tile_const : string -> nat -> tensor4.

Definition sub (name child : string) : string := (name ++ "/" ++ child)%string.

Definition ToRGB_call (self : ToRGB) (x : tensor4) (y : option tensor4) (w : mat)
  : tensor4 :=
  let t := ModulatedConv2D_call (sub (torgb_name self) "mod_conv") x w in
  let t := Bias_call (sub (torgb_name self) "bias") t in
  match y with
  | None => t
  | Some y => add y t
  end.

Definition SynthesisConstBlock_call (self : SynthesisConstBlock) (w0 : mat)
  : tensor4 :=
  let batch_size := length w0 in
  let x := tile_const (const_name self) batch_size in
  let x := ModulatedConv2D_call (sub (const_name self) "mod_conv") x w0 in
  let x := Noise_call (sub (const_name self) "noise") x in
  let x := Bias_call (sub (const_name self) "bias") x in
  LeakyReLU_call (sub (const_name self) "lrelu") x.

Definition SynthesisBlock_call (self : SynthesisBlock) (x : tensor4) (w0 w1 : mat)
  : tensor4 :=
  let x := ModulatedConv2D_call (sub (block_name self) "mod_conv_0") x w0 in
  let x := Noise_call (sub (block_name self) "noise_0") x in
  let x := Bias_call (sub (block_name self) "bias_0") x in
  let x := LeakyReLU_call (sub (block_name self) "lrelu_0") x in
  let x := ModulatedConv2D_call (sub (block_name self) "mod_conv_1") x w1 in
  let x := Noise_call (sub (block_name self) "noise_1") x in
  let x := Bias_call (sub (block_name self) "bias_1") x in
  LeakyReLU_call (sub (block_name self) "lrelu_1") x.

(** The loop of [Synthesis.call] over
    [zip(self.blocks, self.upscales, self.torgbs)]. *)
Fixpoint ladder (layers : list (SynthesisBlock * unit * ToRGB))
  (w_broadcasted : ten3) (layer_index : nat) (x y : tensor4) : logged tensor4 :=
  match layers with
  | [] => lret y
  | (block, _, torgb) :: layers' =>
      (w0 <- slice w_broadcasted layer_index ;;
       w1 <- slice w_broadcasted (layer_index + 1) ;;
       w2 <- slice w_broadcasted (layer_index + 2) ;;
       let x := SynthesisBlock_call block x w0 w1 in
       let y := Upscale2D_call y in
       let y := ToRGB_call torgb x (Some y) w2 in
       ladder layers' w_broadcasted (layer_index + 2) x y)%logged
  end.

Definition call (self : t) (w_broadcasted : ten3) : logged tensor4 :=
  (w0 <- slice w_broadcasted 0 ;;
   w1 <- slice w_broadcasted 1 ;;
   let x := SynthesisConstBlock_call (initial_block self) w0 in
   let y := ToRGB_call (initial_torgb self) x None w1 in
   ladder (combine (combine (blocks self) (upscales self)) (torgbs self))
     w_broadcasted 1 x y)%logged.
End Layers.

End Synthesis.

(** ** Renderer *)

(** A Python value used as the [training] flag, and its truth value. *)
Inductive pyflag : Type :=
| PyNone
| PyBool (b : bool)
| PyInt (z : Z).

Definition truthy (f : pyflag) : bool :=
  match f with
  | PyNone => false
  | PyBool b => b
  | PyInt z => negb (z =? 0)%Z
  end.

(** [l[index] = v] on a list, which a loop of [__init__] applies to positions
    in range only. *)
Fixpoint list_set {A : Type} (l : list A) (index : nat) (v : A) : list A :=
  match l, index with
  | [], _ => []
  | _ :: l', O => v :: l'
  | a :: l', S i => a :: list_set l' i v
  end.

Fixpoint map_result {A B : Type} (f : A -> result B) (l : list A) : result (list B) :=
  match l with
  | [] => Ok []
  | a :: l' => (b <- f a ;; bs <- map_result f l' ;; Ok (b :: bs))%result
  end.

(** [tf.one_hot(v, depth)] *)
Definition one_hot (depth v : nat) : vec :=
  map (fun j => if (j =? v)%nat then 1 else 0) (seq 0 depth).

(** [tf.random.uniform(shape, minval, maxval, dtype=tf.dtypes.int32)] for one
    element of the result: the value TensorFlow derives from the raw output
    [raw] of its generator lies in [minval, maxval), a raw output in that
    range standing for itself; an empty range is an error. *)
Definition random_uniform_int (minval maxval raw : nat) : result nat :=
  if (minval <? maxval)%nat
  then Ok (minval + (raw - minval) mod (maxval - minval))%nat
  else Raise InvalidArgumentError.

(** [tf.concat(ms, axis=1)] on tensors of shape [batch_size, d_j]. *)
Definition concat_axis1 (batch_size : nat) (ms : list mat) : result mat :=
  match ms with
  | [] => Raise InvalidArgumentError
  | _ => Ok (map (fun b => concat (map (fun m => nth b m []) ms)) (seq 0 batch_size))
  end.

(** [tf.where(condition, x, y)], [condition] being given along the second
    axis and broadcast to the shape of [x]; the operands [x] and [y] have one
    shape. *)
Definition select (c : bool) (v1 v2 : vec) : result vec :=
  if (length v1 =? length v2)%nat then Ok (if c then v1 else v2)
  else Raise InvalidArgumentError.

Definition where_row (cond : list bool) (r1 r2 : list vec) : result (list vec) :=
  (cs <- zip_strict (fun c v1 => Ok (c, v1)) cond r1 ;;
   zip_strict (fun '(c, v1) v2 => select c v1 v2) cs r2)%result.

Definition tf_where (cond : list bool) (w1 w2 : ten3) : result ten3 :=
  zip_strict (where_row cond) w1 w2.

(** [lerp(a, w, coefs)] with [a] of shape [d], [w] of shape [batch, n, d] and
    [coefs] of shape [1, n, 1]. *)
Definition lerp_broadcast (a : vec) (w : ten3) (coefs : list R) : result ten3 :=
  map_result
    (fun row => zip_strict (fun v c => zip_strict (fun x y => Ok (lerp x y c)) a v) row coefs)
    w.

Module Renderer.

Record g_params : Type := {
  g_x_dim : nat;
  g_w_dim : nat;
  g_x_depth : list nat;
  g_n_mapping : nat;
  g_resolutions : list Z;
  g_featuremaps : list Z;
  g_w_ema_decay : R;
  g_style_mixing_prob : R;
  g_truncation_psi : R;
  g_truncation_cutoff : option Z
}.

Record t : Type := {
  x_dim : nat;
  w_dim : nat;
  x_depth : list nat;
  n_mapping : nat;
  resolutions : list Z;
  featuremaps : list Z;
  w_ema_decay : R;
  style_mixing_prob : R;
  truncation_psi : R;
  truncation_cutoff : option Z;
  n_broadcast : nat;
  mixing_layer_indices : list nat;
  truncation_coefs : list R;
  g_mapping : Mapping.t;
  synthesis : Synthesis.t
}.

(** The mutable state of the forward pass. *)
Record state : Type := { w_avg : vec }.

(** Computations that read and write the state and may raise; the state
    reached when an exception is raised is kept. *)
Definition M (A : Type) : Type := state -> state * result A.

Definition ret {A : Type} (a : A) : M A := fun st => (st, Ok a).

Definition bind {A B : Type} (m : M A) (k : A -> M B) : M B :=
  fun st =>
    match m st with
    | (st', Ok a) => k a st'
    | (st', Raise e) => (st', Raise e)
    end.

Definition lift {A : Type} (r : result A) : M A := fun st => (st, r).

Declare Scope renderer_scope.
Delimit Scope renderer_scope with renderer.
Notation "x <- m ;; k" := (bind m (fun x => k))
  (at level 61, m at next level, right associativity) : renderer_scope.

(** The random draws of one forward pass: [rand_int field b] is the raw
    output of the generator behind the category drawn for sample [b] of
    field [field] by
    [tf.random.uniform(shape=[batch_size], minval=0, maxval=depth)],
    [rand_u] the draw of [tf.random.uniform([], 0.0, 1.0)] and [rand_cutoff]
    the raw output behind the draw of
    [tf.random.uniform([], 1, self.n_broadcast)]. *)
Record draws : Type := {
  rand_int : nat -> nat -> nat;
  rand_u : R;
  rand_cutoff : nat
}.

(** Draws within the ranges of their calls. *)
Definition draws_ok (self : t) (d : draws) : Prop :=
  0 <= rand_u d < 1 /\ (1 <= rand_cutoff d < n_broadcast self)%nat.

(** The loop of [__init__] that writes [truncation_psi] below the cutoff. *)
Definition truncation_coefs_loop (n_broadcast : nat) (truncation_cutoff : Z)
  (truncation_psi : R) (ones : list R) : list R :=
  fold_left
    (fun coefs index =>
       if (Z.of_nat index <? truncation_cutoff)%Z
       then list_set coefs index truncation_psi
       else coefs)
    (seq 0 n_broadcast) ones.

Section Layers.
Variable LabelEmbedding_call : mat -> mat.
Variable Dense_call : nat -> mat -> mat.
Variable Bias_call : nat -> mat -> mat.
Variable LeakyReLU_call : nat -> mat -> mat.

Variable tensor4 : Type.
Variable ModulatedConv2D_call : string -> tensor4 -> mat -> tensor4.
Variable Noise_call : string -> tensor4 -> tensor4.
Variable Bias4_call : string -> tensor4 -> tensor4.
Variable LeakyReLU4_call : string -> tensor4 -> tensor4.
Variable Upscale2D_call : tensor4 -> tensor4.
Variable add : tensor4 -> tensor4 -> tensor4.
Variable tile_const : string -> nat -> tensor4.

Definition init (p : g_params) : result t :=
  let n_broadcast := (length (g_resolutions p) * 2)%nat in
  let mixing_layer_indices := seq 0 n_broadcast in
  let ones := map (fun _ => 1) mixing_layer_indices in
  let truncation_coefs :=
    match g_truncation_cutoff p with
    | None => map (fun o => o * g_truncation_psi p) ones
    | Some cutoff =>
        truncation_coefs_loop n_broadcast cutoff (g_truncation_psi p) ones
    end in
  let g_mapping :=
    Mapping.init Dense_call Bias_call LeakyReLU_call (g_n_mapping p) n_broadcast in
  (synthesis <- Synthesis.init (g_w_dim p) (g_resolutions p) (g_featuremaps p) ;;
   Ok {| x_dim := g_x_dim p; w_dim := g_w_dim p; x_depth := g_x_depth p;
         n_mapping := g_n_mapping p; resolutions := g_resolutions p;
         featuremaps := g_featuremaps p; w_ema_decay := g_w_ema_decay p;
         style_mixing_prob := g_style_mixing_prob p;
         truncation_psi := g_truncation_psi p;
         truncation_cutoff := g_truncation_cutoff p;
         n_broadcast := n_broadcast;
         mixing_layer_indices := mixing_layer_indices;
         truncation_coefs := truncation_coefs;
         g_mapping := g_mapping; synthesis := synthesis |})%result.

(** [build]: [w_avg] starts as zeros of shape [w_dim]. *)
Definition build (self : t) : state := {| w_avg := repeat 0 (w_dim self) |}.

(** [self.w_avg.assign(value)]: a value of another shape than the variable
    is refused, and the variable keeps what it holds. *)
Definition w_avg_assign (value : vec) : M unit :=
  fun st =>
    if (length value =? length (w_avg st))%nat
    then ({| w_avg := value |}, Ok tt)
    else (st, Raise ValueError).

(** The batch mean has the width of the style codes of the batch. *)
Definition update_moving_average_of_w (self : t) (w_broadcasted : ten3) : M unit :=
  fun st =>
    match column 0 w_broadcasted with
    | Raise e => (st, Raise e)
    | Ok w0 =>
        let batch_avg := reduce_mean_axis0 (w_dim self) w0 in
        match lerp_vec batch_avg (w_avg st) (w_ema_decay self) with
        | Raise e => (st, Raise e)
        | Ok v => w_avg_assign v st
        end
    end.

Definition draw_random_x (self : t) (d : draws) (x1 : mat) : result mat :=
  let batch_size := length x1 in
  (new_x <-
     map_result
       (fun '(field, depth) =>
          (vals <-
             map_result (fun b => random_uniform_int 0 depth (rand_int d field b))
               (seq 0 batch_size) ;;
           let onehot := map (one_hot depth) vals in
           Ok onehot)%result)
       (combine (seq 0 (length (x_depth self))) (x_depth self)) ;;
   concat_axis1 batch_size new_x)%result.

(** The mixing limit index of [style_mixing_regularization]: drawn in
    [1, n_broadcast) when the uniform draw is below [style_mixing_prob],
    [n_broadcast] otherwise. *)
Definition mixing_cutoff_index (self : t) (d : draws) : result nat :=
  if Rlt_dec (rand_u d) (style_mixing_prob self)
  then random_uniform_int 1 (n_broadcast self) (rand_cutoff d)
  else Ok (n_broadcast self).

Definition style_mixing_regularization (self : t) (d : draws) (x1 : mat)
  (w_broadcasted1 : ten3) : result ten3 :=
  (x2 <- draw_random_x self d x1 ;;
   let w_broadcasted2 := Mapping.call LabelEmbedding_call (g_mapping self) x2 in
   cutoff <- mixing_cutoff_index self d ;;
   tf_where
     (map (fun i => (i <? cutoff)%nat) (mixing_layer_indices self))
     w_broadcasted1 w_broadcasted2)%result.

Definition truncation_trick (self : t) (w_broadcasted : ten3) : M ten3 :=
  fun st => (st, lerp_broadcast (w_avg st) w_broadcasted (truncation_coefs self)).

(** [Renderer.call] up to the invocation of the synthesis network: the
    style tensor handed to it. *)
Definition call_styles (self : t) (d : draws) (inputs : mat) (training : pyflag)
  : M ten3 :=
  let x := inputs in
  let w_broadcasted := Mapping.call LabelEmbedding_call (g_mapping self) x in
  (w_broadcasted <-
     (if truthy training
      then (_ <- update_moving_average_of_w self w_broadcasted ;;
            lift (style_mixing_regularization self d x w_broadcasted))
      else ret w_broadcasted) ;;
   if negb (truthy training)
   then truncation_trick self w_broadcasted
   else ret w_broadcasted)%renderer.

Definition call (self : t) (d : draws) (inputs : mat) (training : pyflag)
  : M tensor4 :=
  (w_broadcasted <- call_styles self d inputs training ;;
   lift (snd (Synthesis.call tensor4 ModulatedConv2D_call Noise_call Bias4_call
                LeakyReLU4_call Upscale2D_call add tile_const
                (synthesis self) w_broadcasted)))%renderer.
End Layers.

End Renderer.

(** ** The moving average of the weights *)

Module Ema.

(** A [tf.Variable] as the sync sees it: its name, its shape and its
    elements in row-major order. *)
Record variable : Type := {
  name : string;
  shape : list nat;
  value : list R
}.

(** The weights Keras reports for a network.  The variables of the source
    network are other objects than those of the target. *)
Record weights : Type := {
  trainable_weights : list variable;
  non_trainable_weights : list variable
}.

(** [name.split('/')] *)
Fixpoint split (s : string) : list string :=
  match s with
  | EmptyString => [EmptyString]
  | String c s' =>
      if Ascii.eqb c "/" then EmptyString :: split s'
      else match split s' with
           | [] => [String c EmptyString]
           | h :: t => String c h :: t
           end
  end.

Definition split_first_name (name : string) : string :=
  let splitted := split name in
  let new_name := String.concat "/" (tl splitted) in
  new_name.

Definition shape_eqb (s1 s2 : list nat) : bool :=
  if list_eq_dec Nat.eq_dec s1 s2 then true else false.

(** [lerp(sw, cw, beta)] on two variables of one shape. *)
Definition lerp_value (sw cw : list R) (beta : R) : list R :=
  map (fun '(s, c) => lerp s c beta) (combine sw cw).

Definition assign (cw : variable) (v : list R) : variable :=
  {| name := name cw; shape := shape cw; value := v |}.

(** The inner loop: the first source variable of the same stripped name is
    used and the loop is left. *)
Fixpoint inner (cw : variable) (cw_name : string) (sws : list variable) (beta : R)
  : result variable :=
  match sws with
  | [] => Ok cw
  | sw :: sws' =>
      let sw_name := split_first_name (name sw) in
      if String.eqb cw_name sw_name
      then if shape_eqb (shape sw) (shape cw)
           then Ok (assign cw (lerp_value (value sw) (value cw) beta))
           else Raise AssertionError
      else inner cw cw_name sws' beta
  end.

(** The outer loop; the variables assigned before an assertion fails stay
    assigned. *)
Fixpoint outer (cws sws : list variable) (beta : R) : list variable * result unit :=
  match cws with
  | [] => ([], Ok tt)
  | cw :: cws' =>
      let cw_name := split_first_name (name cw) in
      match inner cw cw_name sws beta with
      | Raise e => (cw :: cws', Raise e)
      | Ok cw' =>
          let '(rest, r) := outer cws' sws beta in
          (cw' :: rest, r)
      end
  end.

Definition default_beta : R := 99 / 100.
Definition default_beta_nontrainable : R := 0.

Definition set_as_moving_average_of (self src_net : weights)
  (beta beta_nontrainable : R) : weights * result unit :=
  match outer (trainable_weights self) (trainable_weights src_net) beta with
  | (tw, Raise e) =>
      ({| trainable_weights := tw;
          non_trainable_weights := non_trainable_weights self |}, Raise e)
  | (tw, Ok _) =>
      let '(ntw, r) :=
        outer (non_trainable_weights self) (non_trainable_weights src_net)
          beta_nontrainable in
      ({| trainable_weights := tw; non_trainable_weights := ntw |}, r)
  end.

(** The first source variable whose stripped name is that of [cw]. *)
Definition first_match (cw : variable) (sws : list variable) : option variable :=
  find (fun sw => String.eqb (split_first_name (name cw)) (split_first_name (name sw)))
    sws.

(** A variable holds as many elements as its shape says. *)
Definition wf_variable (v : variable) : Prop :=
  length (value v) = fold_right Nat.mul 1%nat (shape v).

End Ema.

(** ** Reading tensors *)

(** [t[b, i, k]] *)
Definition elem3 (t : ten3) (b i k : nat) : R := nth k (nth i (nth b t []) []) 0.

(** [t[b, i]] *)
Definition pos3 (t : ten3) (b i : nat) : vec := nth i (nth b t []) [].

(** ** Configurations *)

(** Each resolution is twice the one before it. *)
Fixpoint strictly_doubles (resolutions : list Z) : bool :=
  match resolutions with
  | [] => true
  | res :: rest =>
      match rest with
      | [] => true
      | next :: _ => (next =? 2 * res)%Z && strictly_doubles rest
      end
  end.

(** The configuration of [main]. *)
Definition g_params_with_label : Renderer.g_params :=
  {| Renderer.g_x_dim := 250;
     Renderer.g_w_dim := 512;
     Renderer.g_x_depth :=
       [48; 11; 5; 11; 8; 2; 7; 9; 7; 8; 5; 3; 2; 3; 3; 2; 2; 5; 5; 5; 5; 4; 3;
        5; 5; 5; 5; 5; 5; 5; 5; 5; 5; 3; 5; 5; 3; 3; 3; 5; 5; 5]%nat;
     Renderer.g_n_mapping := 8;
     Renderer.g_resolutions := [4; 8; 16; 32; 64; 128; 256]%Z;
     Renderer.g_featuremaps := [512; 512; 512; 512; 512; 256; 128]%Z;
     Renderer.g_w_ema_decay := 995 / 1000;
     Renderer.g_style_mixing_prob := 9 / 10;
     Renderer.g_truncation_psi := 1 / 2;
     Renderer.g_truncation_cutoff := None |}.

(** A two-step ladder with one-dimensional style codes. *)
Definition small_params (resolutions : list Z) (style_mixing_prob : R)
  (truncation_cutoff : option Z) : Renderer.g_params :=
  {| Renderer.g_x_dim := 2;
     Renderer.g_w_dim := 1;
     Renderer.g_x_depth := [2%nat];
     Renderer.g_n_mapping := 2;
     Renderer.g_resolutions := resolutions;
     Renderer.g_featuremaps := [512; 256]%Z;
     Renderer.g_w_ema_decay := 995 / 1000;
     Renderer.g_style_mixing_prob := style_mixing_prob;
     Renderer.g_truncation_psi := 1 / 2;
     Renderer.g_truncation_cutoff := truncation_cutoff |}.

(** The same ladder with a second field that has no category. *)
Definition empty_field_params : Renderer.g_params :=
  {| Renderer.g_x_dim := 2;
     Renderer.g_w_dim := 1;
     Renderer.g_x_depth := [2%nat; 0%nat];
     Renderer.g_n_mapping := 2;
     Renderer.g_resolutions := [4; 8]%Z;
     Renderer.g_featuremaps := [512; 256]%Z;
     Renderer.g_w_ema_decay := 995 / 1000;
     Renderer.g_style_mixing_prob := 9 / 10;
     Renderer.g_truncation_psi := 1 / 2;
     Renderer.g_truncation_cutoff := None |}.

(** Layers that pass their input on, for running the model: the embedding
    keeps the first component of a sample, or the whole sample, the other
    layers are identities, and rank-4 tensors carry no data. *)
Definition first_component (x : mat) : mat := map (fun row => firstn 1 row) x.
Definition whole_sample (x : mat) : mat := x.
Definition same_mat (_ : nat) (x : mat) : mat := x.
Definition same_unit (_ : string) (x : unit) : unit := x.
Definition conv_unit (_ : string) (x : unit) (_ : mat) : unit := x.
Definition add_unit (_ _ : unit) : unit := tt.
Definition tile_unit (_ : string) (_ : nat) : unit := tt.

(** ** Sample data *)

(** A batch of one one-hot sample, a style tensor of shape [1, 4, 1], and
    one outcome of the draws of a forward pass. *)
Definition x_hot : mat := [[1; 0]].
Definition w_demo : ten3 := [[[1]; [2]; [3]; [4]]].
Definition draws_demo : Renderer.draws :=
  {| Renderer.rand_int := fun _ _ => 1%nat;
     Renderer.rand_u := 1 / 2;
     Renderer.rand_cutoff := 1 |}.

(** Draws whose generator puts out numbers outside the ranges asked for. *)
Definition draws_raw : Renderer.draws :=
  {| Renderer.rand_int := fun _ _ => 5%nat;
     Renderer.rand_u := 1 / 2;
     Renderer.rand_cutoff := 0 |}.

(** The weights of a target and of a source network; the source has two
    trainable variables of one name. *)
Definition target_weights : Ema.weights :=
  {| Ema.trainable_weights :=
       [ {| Ema.name := "renderer/g_mapping/dense_0/w:0";
            Ema.shape := [2%nat]; Ema.value := [1; 2] |};
         {| Ema.name := "renderer/g_mapping/extra/w:0";
            Ema.shape := [1%nat]; Ema.value := [7] |} ];
     Ema.non_trainable_weights :=
       [ {| Ema.name := "renderer/w_avg:0";
            Ema.shape := [1%nat]; Ema.value := [1] |} ] |}.

Definition source_weights : Ema.weights :=
  {| Ema.trainable_weights :=
       [ {| Ema.name := "renderer_1/g_mapping/dense_0/w:0";
            Ema.shape := [2%nat]; Ema.value := [3; 4] |};
         {| Ema.name := "renderer_2/g_mapping/dense_0/w:0";
            Ema.shape := [2%nat]; Ema.value := [5; 6] |} ];
     Ema.non_trainable_weights :=
       [ {| Ema.name := "renderer_1/w_avg:0";
            Ema.shape := [1%nat]; Ema.value := [2] |} ] |}.

(** A source network whose first trainable variable has another shape than
    its match in the target. *)
Definition mismatched_source : Ema.weights :=
  {| Ema.trainable_weights :=
       [ {| Ema.name := "renderer_1/g_mapping/dense_0/w:0";
            Ema.shape := [3%nat]; Ema.value := [3; 4; 5] |} ];
     Ema.non_trainable_weights :=
       [ {| Ema.name := "renderer_1/w_avg:0";
            Ema.shape := [1%nat]; Ema.value := [2] |} ] |}.

(** A source network whose second trainable variable has another shape than
    its match in the target, the second trainable variable of the target. *)
Definition late_mismatch_source : Ema.weights :=
  {| Ema.trainable_weights :=
       [ {| Ema.name := "renderer_1/g_mapping/dense_0/w:0";
            Ema.shape := [2%nat]; Ema.value := [3; 4] |};
         {| Ema.name := "renderer_1/g_mapping/extra/w:0";
            Ema.shape := [2%nat]; Ema.value := [8; 9] |} ];
     Ema.non_trainable_weights :=
       [ {| Ema.name := "renderer_1/w_avg:0";
            Ema.shape := [1%nat]; Ema.value := [2] |} ] |}.

(** [w_demo] with a fifth position. *)
Definition w_demo_longer : ten3 := [[[1]; [2]; [3]; [4]; [5]]].

(** ** Specification vocabulary *)

(** The positions read by the ladder after [s] steps, for [k] further steps. *)
Definition ladder_reads (s k : nat) : list nat :=
  flat_map (fun j => [2 * j + 1; 2 * j + 2; 2 * j + 3]%nat) (seq s k).

(** The coefficient of position [i]. *)
Definition coef_at (truncation_cutoff : option Z) (truncation_psi : R) (i : nat) : R :=
  match truncation_cutoff with
  | None => truncation_psi
  | Some cutoff => if (Z.of_nat i <? cutoff)%Z then truncation_psi else 1
  end.

(** The rows of [tf.where]: position by position, the first operand where
    the condition holds and the second elsewhere. *)
Definition mix_row (cond : list bool) (r1 r2 : list vec) : list vec :=
  map (fun '((c, v1), v2) => if (c : bool) then (v1 : vec) else v2)
    (combine (combine cond r1) r2).

(** The name contains a [/]. *)
Fixpoint has_slash (s : string) : bool :=
  match s with
  | EmptyString => false
  | String c s' => Ascii.eqb c "/" || has_slash s'
  end.

(** The value a sync with coefficient [beta] is to leave in [cw]: component
    by component [lerp(sw, cw, beta)] for the first source variable [sw] of
    its stripped name, and what [cw] holds when there is none. *)
Definition synced_value (beta : R) (sws : list Ema.variable) (cw : Ema.variable)
  : list R :=
  match Ema.first_match cw sws with
  | Some sw =>
      map (fun '(s, c) => lerp s c beta) (combine (Ema.value sw) (Ema.value cw))
  | None => Ema.value cw
  end.

(** The variable of the name and shape of [cw] that holds that value. *)
Definition synced (beta : R) (sws : list Ema.variable) (cw : Ema.variable)
  : Ema.variable :=
  {| Ema.name := Ema.name cw;
     Ema.shape := Ema.shape cw;
     Ema.value := synced_value beta sws cw |}.

(** Every component of every variable is at most [bound] in magnitude. *)
Definition values_within (bound : R) (ws : list Ema.variable) : Prop :=
  Forall (fun v => Forall (fun x => Rabs x <= bound) (Ema.value v)) ws.

(** Every variable of [cws] that has a match in [sws] has its shape. *)
Definition shapes_agree (cws sws : list Ema.variable) : Prop :=
  forall cw sw, In cw cws -> Ema.first_match cw sws = Some sw ->
                Ema.shape sw = Ema.shape cw.

(** The string holds no [x]. *)
Fixpoint no_x (s : string) : bool :=
  match s with
  | EmptyString => true
  | String c s' => negb (Ascii.eqb c "x") && no_x s'
  end.

(** The scope names of the layers of a synthesis network. *)
Definition layer_names (s : Synthesis.t) : list string :=
  Synthesis.const_name (Synthesis.initial_block s)
  :: Synthesis.torgb_name (Synthesis.initial_torgb s)
  :: (map Synthesis.torgb_name (Synthesis.torgbs s)
      ++ map Synthesis.block_name (Synthesis.blocks s))%list.

(** * Properties *)

(** ** Sums and means *)

Lemma Rsum_scale (k : R) (x : vec) :
  Rsum (map (fun v => (v * k) * (v * k)) x) = k * k * Rsum (map (fun v => v * v) x).
Proof.
  induction x as [|a x IH]; simpl.
  - ring.
  - rewrite IH. ring.
Qed.

Lemma Rsum_squares_nonneg (x : vec) : 0 <= Rsum (map (fun v => v * v) x).
Proof.
  induction x as [|a x IH]; simpl.
  - lra.
  - pose proof (Rle_0_sqr a) as Ha. unfold Rsqr in Ha. lra.
Qed.

Lemma mean_squares_nonneg (x : vec) : 0 <= reduce_mean (map (fun v => v * v) x).
Proof.
  unfold reduce_mean. rewrite length_map.
  destruct x as [|a x].
  - simpl. unfold Rdiv. rewrite Rmult_0_l. lra.
  - apply Rmult_le_pos.
    + apply Rsum_squares_nonneg.
    + left. apply Rinv_0_lt_compat. apply lt_0_INR. simpl. lia.
Qed.

Lemma eps_pos : 0 < Mapping.eps.
Proof. unfold Mapping.eps. lra. Qed.

(** The mean square of a normalised sample. *)
Lemma mean_square_norm_row (x : vec) :
  let m := reduce_mean (map (fun v => v * v) x) in
  reduce_mean (map (fun v => v * v) (Mapping.norm_row x)) = m / (m + Mapping.eps).
Proof.
  intros m. unfold Mapping.norm_row. fold m.
  pose proof (mean_squares_nonneg x) as Hm. fold m in Hm.
  pose proof eps_pos as He.
  set (k := / sqrt (m + Mapping.eps)).
  rewrite map_map. unfold reduce_mean at 1.
  rewrite Rsum_scale, length_map.
  assert (Hk : k * k = / (m + Mapping.eps)).
  { unfold k. rewrite <- Rinv_mult. rewrite sqrt_sqrt by lra. reflexivity. }
  rewrite Hk. unfold m, reduce_mean. rewrite length_map.
  unfold Rdiv. ring.
Qed.

(** ** Mapping: the normalisation *)

Lemma rms_norm_row_eq (x : vec) :
  Mapping.rms (Mapping.norm_row x)
  = sqrt (reduce_mean (map (fun v => v * v) x)
          / (reduce_mean (map (fun v => v * v) x) + Mapping.eps)).
Proof. unfold Mapping.rms. rewrite mean_square_norm_row. reflexivity. Qed.

(** C8, as amended.  [Mapping.call] normalises the embedding before the
    dense blocks, each sample [x] becoming [x * rsqrt(mean(x^2) + eps)],
    that is [x / sqrt(mean(x^2) + eps)], with [eps = 1e-8].  For a sample
    whose mean square is large against [eps], [eps <= tol * mean(x^2)] for a
    tolerance [tol] no finer than [1e-5], and whose squares stay in the
    range of the numbers, the RMS of the normalised sample is 1 within
    [tol]. *)
Theorem norm_row_rms (LabelEmbedding_call : mat -> mat) (m : Mapping.t)
  (inputs : mat) (i : nat) (tol : R) :
  let e := LabelEmbedding_call inputs in
  let x := nth i e [] in
  let ms := reduce_mean (map (fun v => v * v) x) in
  / 100000 <= tol ->
  Mapping.eps <= tol * ms ->
  Rsum (map (fun v => v * v) x) <= 2 ^ 127 ->
  Mapping.eps = 1 / 10 ^ 8 /\
  Mapping.call LabelEmbedding_call m inputs
  = Mapping.broadcast (Mapping.n_broadcast m)
      (fold_left
         (fun x0 '(dense, apply_bias, apply_act) => apply_act (apply_bias (dense x0)))
         (combine (combine (Mapping.dense_layers m) (Mapping.bias_layers m))
            (Mapping.act_layers m))
         (Mapping.norm e)) /\
  nth i (Mapping.norm e) [] = map (fun v => v * / sqrt (ms + Mapping.eps)) x /\
  Rabs (Mapping.rms (nth i (Mapping.norm e) []) - 1) <= tol.
Proof.
  intros e x ms Htol Hms _.
  pose proof (mean_squares_nonneg x) as Hm. fold ms in Hm.
  pose proof eps_pos as He.
  assert (Hnth : nth i (Mapping.norm e) [] = Mapping.norm_row x).
  { unfold Mapping.norm, x.
    change (@nil R) with (Mapping.norm_row []) at 1. apply map_nth. }
  assert (Hpos : 0 < ms).
  { destruct (Rle_lt_dec ms 0) as [Hle|Hlt]; [|exact Hlt].
    assert (tol * ms <= 0) by nra. lra. }
  set (q := ms / (ms + Mapping.eps)).
  assert (Hgap : 1 - q <= tol).
  { unfold q. apply Rmult_le_reg_r with (ms + Mapping.eps); [lra|].
    replace ((1 - ms / (ms + Mapping.eps)) * (ms + Mapping.eps))
      with Mapping.eps by (field; lra).
    nra. }
  assert (Hq : 0 <= q < 1).
  { unfold q. split.
    - apply Rmult_le_pos; [lra|]. left. apply Rinv_0_lt_compat. lra.
    - apply Rmult_lt_reg_r with (ms + Mapping.eps); [lra|].
      unfold Rdiv. rewrite Rmult_assoc, Rinv_l by lra. lra. }
  assert (Hs : q <= sqrt q <= 1).
  { pose proof (sqrt_pos q) as H0.
    assert (H1 : sqrt q <= 1) by (rewrite <- sqrt_1; apply sqrt_le_1; lra).
    pose proof (sqrt_sqrt q (proj1 Hq)) as Hsq. split; [nra|exact H1]. }
  split; [unfold Mapping.eps; lra|].
  split; [reflexivity|].
  split; [rewrite Hnth; reflexivity|].
  rewrite Hnth, rms_norm_row_eq. fold ms. fold q.
  apply Rabs_le. lra.
Qed.

Lemma Rsum_repeat (v : R) (n : nat) : Rsum (repeat v n) = INR n * v.
Proof.
  induction n as [|n IH].
  - simpl. ring.
  - rewrite S_INR. cbn [repeat Rsum fold_right]. fold (Rsum (repeat v n)).
    rewrite IH. ring.
Qed.

Lemma mean_squares_repeat (c : R) (n : nat) :
  reduce_mean (map (fun v => v * v) (repeat c (S n))) = c * c.
Proof.
  unfold reduce_mean. rewrite map_repeat, Rsum_repeat, repeat_length.
  field. apply not_0_INR. discriminate.
Qed.

(** C8, counterexample.  The embedding of width 512 with every component
    [1e-4] is not zero; its mean square is [eps], and the RMS of its
    normalisation is [sqrt(1/2)], further than 1/4 from 1. *)
Lemma norm_row_rms_far_from_one :
  / 10000 <> 0 /\
  reduce_mean (map (fun v => v * v) (repeat (/ 10000) 512)) = Mapping.eps /\
  ~ Rabs (Mapping.rms (nth 0 (Mapping.norm [repeat (/ 10000) 512]) []) - 1) <= / 4.
Proof.
  assert (Hm : reduce_mean (map (fun v => v * v) (repeat (/ 10000) 512)) = Mapping.eps).
  { change 512%nat with (S 511). rewrite mean_squares_repeat.
    unfold Mapping.eps. field. }
  split; [lra|]. split; [exact Hm|].
  cbn [Mapping.norm map nth].
  pose proof (rms_norm_row_eq (repeat (/ 10000) 512)) as Hrms.
  intros Habs.
  rewrite Hm in Hrms.
  assert (Hhalf : Mapping.eps / (Mapping.eps + Mapping.eps) = / 2).
  { unfold Mapping.eps. field. }
  rewrite Hhalf in Hrms.
  assert (Hs : sqrt (/ 2) < 3 / 4).
  { replace (3 / 4) with (sqrt ((3 / 4) * (3 / 4))) by (apply sqrt_square; lra).
    apply sqrt_lt_1; lra. }
  rewrite Hrms in Habs.
  unfold Rabs in Habs. destruct (Rcase_abs (sqrt (/ 2) - 1)); lra.
Qed.

(** ** Construction *)

Lemma stack_length (prev_n_f : Z) (l : list (Z * Z)) :
  forall bs us ts, Synthesis.stack prev_n_f l = (bs, us, ts) ->
  length bs = length l /\ length us = length l /\ length ts = length l.
Proof.
  revert prev_n_f. induction l as [|[res n_f] l IH]; intros prev bs us ts H; simpl in H.
  - inversion H. auto.
  - destruct (Synthesis.stack n_f l) as [[bs' us'] ts'] eqn:E.
    inversion H; subst. destruct (IH _ _ _ _ E) as (H1 & H2 & H3).
    simpl. auto.
Qed.

Section Construction.
Variable Dense_call : nat -> mat -> mat.
Variable Bias_call : nat -> mat -> mat.
Variable LeakyReLU_call : nat -> mat -> mat.

Let init := Renderer.init Dense_call Bias_call LeakyReLU_call.

Lemma init_ok_inv (p : Renderer.g_params) (r : Renderer.t) :
  init p = Ok r ->
  exists s,
    Synthesis.init (Renderer.g_w_dim p) (Renderer.g_resolutions p)
      (Renderer.g_featuremaps p) = Ok s /\
    Renderer.synthesis r = s /\
    Renderer.n_broadcast r = (length (Renderer.g_resolutions p) * 2)%nat /\
    Renderer.mixing_layer_indices r = seq 0 (Renderer.n_broadcast r) /\
    Renderer.w_dim r = Renderer.g_w_dim p /\
    Renderer.style_mixing_prob r = Renderer.g_style_mixing_prob p /\
    Renderer.w_ema_decay r = Renderer.g_w_ema_decay p.
Proof.
  unfold init, Renderer.init. intros H.
  destruct (Synthesis.init _ _ _) as [s|e] eqn:E; simpl in H; [|discriminate].
  inversion H; subst; clear H. exists s. simpl. repeat split; reflexivity.
Qed.

(** C7, as amended.  Construction raises [AssertionError] exactly when both
    lists are non-empty and the first resolution is not 4, and
    [IndexError] when one of the lists is empty; it succeeds whenever the
    first resolution is 4 and [featuremaps] is non-empty, whatever the
    later resolutions are, so in particular when they strictly double. *)
Theorem init_outcome (p : Renderer.g_params) :
  match Renderer.g_resolutions p, Renderer.g_featuremaps p with
  | [], _ => init p = Raise IndexError
  | _ :: _, [] => init p = Raise IndexError
  | res :: _, _ :: _ =>
      if (res =? 4)%Z
      then exists r, init p = Ok r /\
                     Renderer.resolutions r = Renderer.g_resolutions p
      else init p = Raise AssertionError
  end.
Proof.
  unfold init, Renderer.init, Synthesis.init.
  destruct (Renderer.g_resolutions p) as [|res rest]; [reflexivity|].
  destruct (Renderer.g_featuremaps p) as [|n_f fs]; [reflexivity|].
  unfold Synthesis.SynthesisConstBlock_init.
  destruct (res =? 4)%Z; [|reflexivity].
  simpl. destruct (Synthesis.stack _ _) as [[bs us] ts].
  simpl. eexists. split; reflexivity.
Qed.
End Construction.

(** C7, counterexample.  The resolutions [4, 5] do not double, and
    construction succeeds on them. *)
Lemma init_accepts_non_doubling :
  strictly_doubles [4; 5]%Z = false /\
  exists r, Renderer.init same_mat same_mat same_mat (small_params [4; 5]%Z (9 / 10) None)
            = Ok r.
Proof.
  split; [reflexivity|].
  unfold Renderer.init. simpl. eexists. reflexivity.
Qed.

(** ** Synthesis: the style positions read *)

Lemma column_ok (n k : nat) (w : ten3) :
  Forall (fun row => length row = n) w -> (k < n)%nat ->
  exists m, column k w = Ok m /\ length m = length w.
Proof.
  intros Hw Hk. induction Hw as [|row w Hrow Hw IH]; simpl.
  - exists []. auto.
  - destruct (nth_error row k) as [v|] eqn:E.
    + destruct IH as (m & -> & Hm). simpl. exists (v :: m). simpl. auto.
    + apply nth_error_None in E. lia.
Qed.

Lemma ladder_reads_bound (s k : nat) :
  Forall (fun i => (i <= 2 * (s + k) + 1)%nat) (ladder_reads s k).
Proof.
  unfold ladder_reads. apply Forall_forall. intros i Hi.
  apply in_flat_map in Hi. destruct Hi as (j & Hj & Hi).
  apply in_seq in Hj. simpl in Hi.
  destruct Hi as [<-|[<-|[<-|[]]]]; lia.
Qed.

Lemma ladder_reads_last (s k : nat) :
  In (2 * (s + S k) + 1)%nat (ladder_reads s (S k)).
Proof.
  unfold ladder_reads. apply in_flat_map. exists (s + k)%nat. split.
  - apply in_seq. lia.
  - simpl. right. right. left. lia.
Qed.

Lemma list_max_exact (l : list nat) (m : nat) :
  Forall (fun i => (i <= m)%nat) l -> In m l -> list_max l = m.
Proof.
  intros Hle Hin. apply Nat.le_antisymm.
  - apply list_max_le. exact Hle.
  - assert (H : Forall (fun i => (i <= list_max l)%nat) l)
      by (apply list_max_le; lia).
    rewrite Forall_forall in H. apply H. exact Hin.
Qed.

Lemma lbind_slice {B : Type} (w : ten3) (k : nat) (m : mat) (f : mat -> logged B) :
  column k w = Ok m ->
  lbind (slice w k) f = (k :: fst (f m), snd (f m)).
Proof.
  intros E. unfold lbind, slice. rewrite E. destruct (f m). reflexivity.
Qed.

Section SynthesisReads.
Variable tensor4 : Type.
Variable ModulatedConv2D_call : string -> tensor4 -> mat -> tensor4.
Variable Noise_call : string -> tensor4 -> tensor4.
Variable Bias4_call : string -> tensor4 -> tensor4.
Variable LeakyReLU4_call : string -> tensor4 -> tensor4.
Variable Upscale2D_call : tensor4 -> tensor4.
Variable add : tensor4 -> tensor4 -> tensor4.
Variable tile_const : string -> nat -> tensor4.

Let ladder :=
  Synthesis.ladder tensor4 ModulatedConv2D_call Noise_call Bias4_call
    LeakyReLU4_call Upscale2D_call add.
Let synthesis_call :=
  Synthesis.call tensor4 ModulatedConv2D_call Noise_call Bias4_call
    LeakyReLU4_call Upscale2D_call add tile_const.

Lemma ladder_log (n : nat) (w : ten3) :
  Forall (fun row => length row = n) w ->
  forall layers s x y,
    (length layers <> 0 -> 2 * (s + length layers) + 1 < n)%nat ->
    exists img,
      ladder layers w (2 * s + 1) x y = (ladder_reads s (length layers), Ok img).
Proof.
  intros Hw. induction layers as [|[[block u] torgb] layers IH]; intros s x y Hn.
  - exists y. reflexivity.
  - assert (Hn' : (2 * (s + S (length layers)) + 1 < n)%nat)
      by (apply Hn; simpl; lia).
    destruct (column_ok n (2 * s + 1) w Hw) as (w0 & E0 & _); [lia|].
    destruct (column_ok n (2 * s + 1 + 1) w Hw) as (w1 & E1 & _); [lia|].
    destruct (column_ok n (2 * s + 1 + 2) w Hw) as (w2 & E2 & _); [lia|].
    unfold ladder. cbn [Synthesis.ladder].
    rewrite (lbind_slice _ _ _ _ E0), (lbind_slice _ _ _ _ E1),
      (lbind_slice _ _ _ _ E2).
    replace (2 * s + 1 + 2)%nat with (2 * S s + 1)%nat by lia.
    match goal with
    | |- context [Synthesis.ladder _ _ _ _ _ _ _ layers w _ ?x' ?y'] =>
        destruct (IH (S s) x' y') as (img & Himg)
    end.
    { intros _. lia. }
    unfold ladder in Himg. rewrite Himg. exists img.
    unfold ladder_reads. cbn [length seq flat_map app fst snd].
    replace (2 * s + 1 + 1)%nat with (2 * s + 2)%nat by lia.
    replace (2 * S s + 1)%nat with (2 * s + 3)%nat by lia.
    reflexivity.
Qed.

(** C1.  For a configuration on which construction succeeds and whose two
    lists have one length, [n_broadcast] is twice the number of
    resolutions, and a forward pass of the synthesis network over a style
    tensor with [n_broadcast] positions returns an image after reading
    positions 0 and 1 and then, for the [j]-th further resolution,
    positions [2j+1, 2j+2, 2j+3]: every position read is below
    [n_broadcast], and the highest one is [n_broadcast - 1]. *)
Theorem synthesis_reads_in_range
  (Dense_call Bias_call LeakyReLU_call : nat -> mat -> mat)
  (p : Renderer.g_params) (r : Renderer.t) (w : ten3) :
  Renderer.init Dense_call Bias_call LeakyReLU_call p = Ok r ->
  length (Renderer.g_featuremaps p) = length (Renderer.g_resolutions p) ->
  Forall (fun row => length row = Renderer.n_broadcast r) w ->
  Renderer.n_broadcast r = (2 * length (Renderer.g_resolutions p))%nat /\
  exists img,
    let reads :=
      ([0; 1] ++ ladder_reads 0 (length (Renderer.g_resolutions p) - 1))%nat%list in
    synthesis_call (Renderer.synthesis r) w = (reads, Ok img) /\
    Forall (fun i => (i < Renderer.n_broadcast r)%nat) reads /\
    list_max reads = (Renderer.n_broadcast r - 1)%nat.
Proof.
  intros Hinit Hlen Hw.
  destruct (init_ok_inv _ _ _ p r Hinit) as (s & Hs & Hsyn & Hn & _).
  rewrite Hsyn. split; [lia|].
  unfold Synthesis.init in Hs.
  destruct (Renderer.g_resolutions p) as [|res rest] eqn:Eres; [discriminate|].
  destruct (Renderer.g_featuremaps p) as [|n_f fs] eqn:Efm; [discriminate|].
  destruct (Synthesis.SynthesisConstBlock_init _ _ _) as [ib|e]; simpl in Hs;
    [|discriminate].
  destruct (Synthesis.stack _ _) as [[bs us] ts] eqn:Est.
  inversion Hs; subst s; clear Hs.
  apply stack_length in Est. destruct Est as (Hbs & Hus & Hts).
  simpl in Hlen. rewrite length_combine in Hbs, Hus, Hts.
  replace (Nat.min (length rest) (length fs)) with (length rest) in * by lia.
  simpl length in *. simpl in Hn.
  set (layers := combine (combine bs us) ts).
  assert (Hl : length layers = length rest).
  { unfold layers. rewrite !length_combine. lia. }
  destruct (column_ok _ 0 w Hw) as (w0 & E0 & _); [lia|].
  destruct (column_ok _ 1 w Hw) as (w1 & E1 & _); [lia|].
  unfold synthesis_call, Synthesis.call.
  cbn [Synthesis.blocks Synthesis.upscales Synthesis.torgbs
       Synthesis.initial_block Synthesis.initial_torgb]. fold layers.
  rewrite (lbind_slice _ _ _ _ E0), (lbind_slice _ _ _ _ E1).
  match goal with
  | |- context [Synthesis.ladder _ _ _ _ _ _ _ layers w _ ?x' ?y'] =>
      destruct (ladder_log _ w Hw layers 0 x' y') as (img & Himg)
  end.
  { rewrite Hl, Hn. lia. }
  unfold ladder in Himg. change (2 * 0 + 1)%nat with 1%nat in Himg.
  rewrite Himg. cbn [fst snd].
  exists img. rewrite Hl.
  replace (S (length rest) - 1)%nat with (length rest) by lia.
  cbn [app].
  split; [reflexivity|].
  pose proof (ladder_reads_bound 0 (length rest)) as Hb.
  split.
  - repeat constructor; try lia.
    eapply Forall_impl; [|exact Hb]. simpl. intros; lia.
  - apply list_max_exact.
    + repeat constructor; try lia.
      eapply Forall_impl; [|exact Hb]. simpl. intros; lia.
    + rewrite Hn. destruct (length rest) as [|k] eqn:Ek.
      * simpl. auto.
      * right. right.
        pose proof (ladder_reads_last 0 k) as Hlast.
        replace (2 * (0 + S k) + 1)%nat with (S (S k) * 2 - 1)%nat in Hlast by lia.
        exact Hlast.
Qed.
End SynthesisReads.

(** ** Elementwise operations *)

(** Linear arithmetic on lengths, up to the names of the tensor types. *)
Ltac tlia := unfold ten3, mat, vec in *; lia.

Lemma nth_map_in {A B : Type} (f : A -> B) (l : list A) (i : nat) (d : A) (d' : B) :
  (i < length l)%nat -> nth i (map f l) d' = f (nth i l d).
Proof.
  revert i. induction l as [|a l IH]; intros [|i] Hi; simpl in *; try lia.
  - reflexivity.
  - apply IH. lia.
Qed.

Lemma zip_strict_ok {A B C : Type} (f : A -> B -> result C) (g : A -> B -> C)
  (xs : list A) (ys : list B) :
  length xs = length ys ->
  (forall x y, In (x, y) (combine xs ys) -> f x y = Ok (g x y)) ->
  zip_strict f xs ys = Ok (map (fun '(x, y) => g x y) (combine xs ys)).
Proof.
  revert ys. induction xs as [|x xs IH]; intros [|y ys] Hlen Hf; simpl in *;
    try discriminate.
  - reflexivity.
  - rewrite (Hf x y) by auto. simpl. rewrite IH by (auto; lia). reflexivity.
Qed.

Lemma map_result_ok {A B : Type} (f : A -> result B) (g : A -> B) (l : list A) :
  (forall a, In a l -> f a = Ok (g a)) -> map_result f l = Ok (map g l).
Proof.
  induction l as [|a l IH]; intros Hf; simpl.
  - reflexivity.
  - rewrite (Hf a) by (simpl; auto). simpl. rewrite IH; [reflexivity|].
    intros; apply Hf; simpl; auto.
Qed.

Lemma has_shape3_row (b n d : nat) (t : ten3) (bi : nat) :
  has_shape3 b n d t -> (bi < b)%nat ->
  length (nth bi t []) = n /\ Forall (fun v => length v = d) (nth bi t []).
Proof.
  intros [Hb Hrows] Hbi. rewrite Forall_forall in Hrows.
  apply Hrows. apply nth_In. lia.
Qed.

Lemma has_shape3_pos (b n d : nat) (t : ten3) (bi i : nat) :
  has_shape3 b n d t -> (bi < b)%nat -> (i < n)%nat -> length (pos3 t bi i) = d.
Proof.
  intros Ht Hbi Hi. destruct (has_shape3_row _ _ _ _ _ Ht Hbi) as [Hn Hvs].
  rewrite Forall_forall in Hvs. apply Hvs. unfold pos3. apply nth_In. lia.
Qed.

(** ** The truncation coefficients *)

Lemma list_set_map_seq (g : nat -> R) (v : R) :
  forall n s k,
    list_set (map g (seq s n)) k v
    = map (fun i => if (i =? s + k)%nat then v else g i) (seq s n).
Proof.
  induction n as [|n IH]; intros s k; simpl.
  - destruct k; reflexivity.
  - destruct k as [|k].
    + rewrite Nat.add_0_r, Nat.eqb_refl. f_equal.
      apply map_ext_in. intros i Hi. apply in_seq in Hi.
      destruct (Nat.eqb_spec i s); [lia|reflexivity].
    + destruct (Nat.eqb_spec s (s + S k)); [lia|]. f_equal.
      rewrite IH. apply map_ext. intros i.
      replace (S s + k)%nat with (s + S k)%nat by lia. reflexivity.
Qed.

Lemma truncation_coefs_loop_eq (n : nat) (cutoff : Z) (psi : R) :
  Renderer.truncation_coefs_loop n cutoff psi (map (fun _ => 1) (seq 0 n))
  = map (coef_at (Some cutoff) psi) (seq 0 n).
Proof.
  unfold Renderer.truncation_coefs_loop.
  assert (H : forall k, (k <= n)%nat ->
    fold_left
      (fun coefs index =>
         if (Z.of_nat index <? cutoff)%Z then list_set coefs index psi else coefs)
      (seq 0 k) (map (fun _ => 1) (seq 0 n))
    = map (fun i => if (i <? k)%nat then coef_at (Some cutoff) psi i else 1) (seq 0 n)).
  { induction k as [|k IH]; intros Hk.
    - reflexivity.
    - rewrite seq_S, fold_left_app, IH by lia. simpl.
      destruct (Z.of_nat k <? cutoff)%Z eqn:Ec.
      + rewrite list_set_map_seq. apply map_ext. intros i. simpl.
        destruct (Nat.eqb_spec i k) as [->|Hne].
        * rewrite Ec. destruct (Nat.ltb_spec k (S k)); [reflexivity|lia].
        * destruct (Nat.ltb_spec i k), (Nat.ltb_spec i (S k)); try lia; reflexivity.
      + apply map_ext. intros i. simpl.
        destruct (Nat.ltb_spec i k), (Nat.ltb_spec i (S k)); try lia; try reflexivity.
        assert (i = k) by lia. subst i. rewrite Ec. reflexivity. }
  rewrite H by lia. apply map_ext_in. intros i Hi. apply in_seq in Hi.
  destruct (Nat.ltb_spec i n); [reflexivity|lia].
Qed.

Lemma lerp_broadcast_ok (a : vec) (coefs : list R) (b : nat) (w : ten3) :
  has_shape3 b (length coefs) (length a) w ->
  lerp_broadcast a w coefs
  = Ok (map (fun row =>
               map (fun '(v, c) => map (fun '(x, y) => lerp x y c) (combine a v))
                 (combine row coefs)) w).
Proof.
  intros [Hb Hrows]. rewrite Forall_forall in Hrows.
  unfold lerp_broadcast. apply map_result_ok. intros row Hrow.
  destruct (Hrows row Hrow) as [Hn Hvs]. rewrite Forall_forall in Hvs.
  apply zip_strict_ok; [exact Hn|].
  intros v c Hvc. apply in_combine_l in Hvc.
  apply zip_strict_ok; [|reflexivity].
  symmetry. apply Hvs. exact Hvc.
Qed.

Lemma lerp_broadcast_elem (a : vec) (coefs : list R) (b : nat) (w : ten3)
  (bi i k : nat) :
  has_shape3 b (length coefs) (length a) w ->
  (bi < b)%nat -> (i < length coefs)%nat -> (k < length a)%nat ->
  elem3 (map (fun row =>
                map (fun '(v, c) => map (fun '(x, y) => lerp x y c) (combine a v))
                  (combine row coefs)) w) bi i k
  = lerp (nth k a 0) (elem3 w bi i k) (nth i coefs 0).
Proof.
  intros Hw Hbi Hi Hk.
  destruct (has_shape3_row _ _ _ _ _ Hw Hbi) as [Hn _].
  pose proof (has_shape3_pos _ _ _ _ _ _ Hw Hbi Hi) as Hd. unfold pos3 in Hd.
  destruct Hw as [Hb _].
  unfold elem3. unfold ten3, mat, vec in *.
  rewrite (nth_map_in _ w bi []) by lia.
  rewrite (nth_map_in _ _ i ([], 0)) by (rewrite length_combine; lia).
  rewrite combine_nth by exact Hn.
  rewrite (nth_map_in _ _ k (0, 0)) by (rewrite length_combine; lia).
  rewrite combine_nth by (symmetry; exact Hd).
  reflexivity.
Qed.

Lemma lerp_broadcast_shape (a : vec) (coefs : list R) (b : nat) (w : ten3) :
  has_shape3 b (length coefs) (length a) w ->
  has_shape3 b (length coefs) (length a)
    (map (fun row =>
            map (fun '(v, c) => map (fun '(x, y) => lerp x y c) (combine a v))
              (combine row coefs)) w).
Proof.
  intros [Hb Hrows]. split; [rewrite length_map; exact Hb|].
  rewrite Forall_forall in *. intros row' Hrow'.
  apply in_map_iff in Hrow'. destruct Hrow' as (row & <- & Hrow).
  destruct (Hrows row Hrow) as [Hn Hvs]. rewrite Forall_forall in Hvs.
  split.
  - rewrite length_map, length_combine. lia.
  - rewrite Forall_forall. intros v' Hv'.
    apply in_map_iff in Hv'. destruct Hv' as ([v c] & <- & Hvc).
    apply in_combine_l in Hvc. rewrite length_map, length_combine.
    rewrite (Hvs v Hvc). lia.
Qed.

(** ** Renderer: the truncation trick *)

Section Truncation.
Variable Dense_call : nat -> mat -> mat.
Variable Bias_call : nat -> mat -> mat.
Variable LeakyReLU_call : nat -> mat -> mat.

Let init := Renderer.init Dense_call Bias_call LeakyReLU_call.

Lemma init_coefs (p : Renderer.g_params) (r : Renderer.t) :
  init p = Ok r ->
  Renderer.truncation_coefs r
  = map (coef_at (Renderer.truncation_cutoff r) (Renderer.truncation_psi r))
      (seq 0 (Renderer.n_broadcast r)).
Proof.
  unfold init, Renderer.init. intros H.
  destruct (Synthesis.init _ _ _) as [s|e]; simpl in H; [|discriminate].
  inversion H; subst; clear H. simpl.
  destruct (Renderer.g_truncation_cutoff p) as [cutoff|].
  - apply truncation_coefs_loop_eq.
  - rewrite map_map. apply map_ext. intros i. simpl. ring.
Qed.

(** C2.  On a style tensor of shape [batch, n_broadcast, w_dim] the
    truncation trick returns, at each position [i] of each sample,
    [w_avg + coef[i] * (w_broadcast[i] - w_avg)], where [coef[i]] is
    [truncation_psi] when [truncation_cutoff] is [None] or [i] is below
    it, and 1 otherwise; [w_avg] is left as it is. *)
Theorem truncation_trick_formula (p : Renderer.g_params) (r : Renderer.t)
  (st : Renderer.state) (w : ten3) (b : nat) :
  init p = Ok r ->
  has_shape3 b (Renderer.n_broadcast r) (length (Renderer.w_avg st)) w ->
  exists out,
    Renderer.truncation_trick r w st = (st, Ok out) /\
    has_shape3 b (Renderer.n_broadcast r) (length (Renderer.w_avg st)) out /\
    forall bi i k,
      (bi < b)%nat -> (i < Renderer.n_broadcast r)%nat ->
      (k < length (Renderer.w_avg st))%nat ->
      elem3 out bi i k
      = nth k (Renderer.w_avg st) 0
        + (match Renderer.truncation_cutoff r with
           | None => Renderer.truncation_psi r
           | Some cutoff =>
               if (Z.of_nat i <? cutoff)%Z then Renderer.truncation_psi r else 1
           end)
          * (elem3 w bi i k - nth k (Renderer.w_avg st) 0).
Proof.
  intros Hinit Hw.
  pose proof (init_coefs p r Hinit) as Hc.
  assert (Hlen : length (Renderer.truncation_coefs r) = Renderer.n_broadcast r).
  { rewrite Hc, length_map, length_seq. reflexivity. }
  rewrite <- Hlen in Hw.
  eexists. split; [|split].
  - unfold Renderer.truncation_trick.
    rewrite (lerp_broadcast_ok _ _ b) by exact Hw. reflexivity.
  - rewrite <- Hlen. apply lerp_broadcast_shape. exact Hw.
  - intros bi i k Hbi Hi Hk.
    rewrite (lerp_broadcast_elem _ _ b) by (auto; lia).
    rewrite Hc. rewrite (nth_map_in _ _ i 0%nat) by (rewrite length_seq; lia).
    rewrite seq_nth by lia. simpl. unfold lerp, coef_at. ring.
Qed.
End Truncation.

(** ** [tf.where] *)

Lemma where_row_ok (d : nat) (cond : list bool) (r1 r2 : list vec) :
  length r1 = length cond -> length r2 = length cond ->
  Forall (fun v => length v = d) r1 -> Forall (fun v => length v = d) r2 ->
  where_row cond r1 r2 = Ok (mix_row cond r1 r2).
Proof.
  intros H1 H2 Hd1 Hd2. rewrite Forall_forall in Hd1, Hd2.
  unfold where_row.
  rewrite (zip_strict_ok _ (fun c v1 => (c, v1))) by (auto; lia).
  simpl.
  assert (Hid : map (fun '(x, y) => (x, y)) (combine cond r1) = combine cond r1).
  { rewrite <- (map_id (combine cond r1)) at 2. apply map_ext. intros []; reflexivity. }
  rewrite Hid.
  rewrite (zip_strict_ok _ (fun '(c, v1) v2 => if (c : bool) then (v1 : vec) else v2)).
  - f_equal. unfold mix_row. apply map_ext. intros [[c v1] v2]. reflexivity.
  - rewrite length_combine. lia.
  - intros [c v1] v2 Hin. unfold select.
    pose proof (in_combine_l _ _ _ _ Hin) as Hcv.
    apply in_combine_r in Hcv. apply in_combine_r in Hin.
    rewrite (Hd1 v1 Hcv), (Hd2 v2 Hin), Nat.eqb_refl. reflexivity.
Qed.

Lemma tf_where_ok (b n d : nat) (cond : list bool) (w1 w2 : ten3) :
  length cond = n -> has_shape3 b n d w1 -> has_shape3 b n d w2 ->
  tf_where cond w1 w2
  = Ok (map (fun '(r1, r2) => mix_row cond r1 r2) (combine w1 w2)).
Proof.
  intros Hc [Hb1 Hr1] [Hb2 Hr2]. rewrite Forall_forall in Hr1, Hr2.
  unfold tf_where. apply zip_strict_ok; [tlia|].
  intros r1 r2 Hin.
  destruct (Hr1 r1 (in_combine_l _ _ _ _ Hin)) as [Hn1 Hd1].
  destruct (Hr2 r2 (in_combine_r _ _ _ _ Hin)) as [Hn2 Hd2].
  apply (where_row_ok d); auto; tlia.
Qed.

Lemma mix_row_true (cond : list bool) (r1 r2 : list vec) :
  length r1 = length cond -> length r2 = length cond ->
  Forall (fun c => c = true) cond -> mix_row cond r1 r2 = r1.
Proof.
  unfold mix_row. revert r1 r2.
  induction cond as [|c cond IH]; intros [|v1 r1] [|v2 r2] H1 H2 Hc;
    simpl in *; try discriminate; try reflexivity.
  inversion Hc; subst. f_equal. apply IH; auto.
Qed.

Lemma mix_tensor_true (b n d : nat) (cond : list bool) (w1 w2 : ten3) :
  length cond = n -> has_shape3 b n d w1 -> has_shape3 b n d w2 ->
  Forall (fun c => c = true) cond ->
  map (fun '(r1, r2) => mix_row cond r1 r2) (combine w1 w2) = w1.
Proof.
  intros Hc [Hb1 Hr1] [Hb2 Hr2] Ht. revert b w2 Hb1 Hb2 Hr2.
  induction Hr1 as [|r1 w1 [Hn1 _] Hr1 IH]; intros b [|r2 w2] Hb1 Hb2 Hr2;
    simpl in *; try reflexivity; try tlia.
  inversion Hr2 as [|? ? [Hn2 _] Hr2']; subst.
  f_equal.
  - apply mix_row_true; auto; tlia.
  - apply (IH (length w1)); auto.
Qed.

Lemma mix_tensor_pos (b n d : nat) (cond : list bool) (w1 w2 : ten3) (bi i : nat) :
  length cond = n -> has_shape3 b n d w1 -> has_shape3 b n d w2 ->
  (bi < b)%nat -> (i < n)%nat ->
  pos3 (map (fun '(r1, r2) => mix_row cond r1 r2) (combine w1 w2)) bi i
  = if nth i cond false then pos3 w1 bi i else pos3 w2 bi i.
Proof.
  intros Hc H1 H2 Hbi Hi.
  destruct (has_shape3_row _ _ _ _ _ H1 Hbi) as [Hn1 _].
  destruct (has_shape3_row _ _ _ _ _ H2 Hbi) as [Hn2 _].
  destruct H1 as [Hb1 _], H2 as [Hb2 _].
  unfold pos3, mix_row. unfold ten3, mat, vec in *.
  rewrite (nth_map_in _ _ bi ([], [])) by (rewrite length_combine; lia).
  rewrite combine_nth by lia.
  rewrite (nth_map_in _ _ i ((false, []), [])) by (rewrite !length_combine; lia).
  rewrite combine_nth by (rewrite length_combine; lia).
  rewrite combine_nth by lia.
  reflexivity.
Qed.

Lemma mix_tensor_shape (b n d : nat) (cond : list bool) (w1 w2 : ten3) :
  length cond = n -> has_shape3 b n d w1 -> has_shape3 b n d w2 ->
  has_shape3 b n d (map (fun '(r1, r2) => mix_row cond r1 r2) (combine w1 w2)).
Proof.
  intros Hc [Hb1 Hr1] [Hb2 Hr2]. rewrite Forall_forall in Hr1, Hr2.
  split; [rewrite length_map, length_combine; tlia|].
  rewrite Forall_forall. intros row Hrow.
  apply in_map_iff in Hrow. destruct Hrow as ([r1 r2] & <- & Hin).
  destruct (Hr1 r1 (in_combine_l _ _ _ _ Hin)) as [Hn1 Hd1].
  destruct (Hr2 r2 (in_combine_r _ _ _ _ Hin)) as [Hn2 Hd2].
  rewrite Forall_forall in Hd1, Hd2.
  unfold mix_row. split.
  - rewrite length_map, !length_combine. tlia.
  - rewrite Forall_forall. intros v Hv.
    apply in_map_iff in Hv. destruct Hv as ([[c v1] v2] & <- & Hv).
    pose proof (in_combine_l _ _ _ _ Hv) as Hcv. apply in_combine_r in Hcv.
    apply in_combine_r in Hv.
    destruct c; auto.
Qed.

(** ** Columns and batch means *)

Lemma column_pos (b n d : nat) (t : ten3) (k : nat) :
  has_shape3 b n d t -> (k < n)%nat ->
  column k t = Ok (map (fun bi => pos3 t bi k) (seq 0 b)).
Proof.
  intros [Hb Hrows] Hk. subst b.
  induction Hrows as [|row t [Hn _] Hrows IH].
  - reflexivity.
  - cbn [column length seq map]. unfold ten3, mat, vec in *.
    destruct (nth_error row k) as [v|] eqn:E.
    + rewrite IH. cbn [rbind]. rewrite <- seq_shift, map_map.
      f_equal. f_equal. unfold pos3. cbn [nth].
      symmetry. apply nth_error_nth with (d := []) in E. exact E.
    + apply nth_error_None in E. lia.
Qed.

Lemma lerp_vec_seq (h : nat -> R) (a : vec) (t : R) (d : nat) :
  length a = d ->
  lerp_vec (map h (seq 0 d)) a t
  = Ok (map (fun k => t * nth k a 0 + (1 - t) * h k) (seq 0 d)).
Proof.
  intros Ha. unfold lerp_vec.
  rewrite length_map, length_seq, Ha, Nat.eqb_refl.
  rewrite (zip_strict_ok _ (fun x y => lerp x y t));
    [|rewrite length_map, length_seq; lia|reflexivity].
  f_equal. apply nth_ext with (d := 0) (d' := 0).
  - rewrite !length_map, length_combine, length_map, !length_seq. lia.
  - intros k Hk.
    rewrite length_map, length_combine, length_map, length_seq in Hk.
    rewrite (nth_map_in _ _ k (0, 0))
      by (rewrite length_combine, length_map, length_seq; lia).
    rewrite combine_nth by (rewrite length_map, length_seq; lia).
    rewrite (nth_map_in _ _ k 0%nat) by (rewrite length_seq; lia).
    rewrite (nth_map_in _ (seq 0 d) k 0%nat) by (rewrite length_seq; lia).
    rewrite seq_nth by lia. simpl. unfold lerp. ring.
Qed.

(** ** Renderer: the forward pass *)

Section Forward.
Variable LabelEmbedding_call : mat -> mat.
Variable Dense_call : nat -> mat -> mat.
Variable Bias_call : nat -> mat -> mat.
Variable LeakyReLU_call : nat -> mat -> mat.

Variable tensor4 : Type.
Variable ModulatedConv2D_call : string -> tensor4 -> mat -> tensor4.
Variable Noise_call : string -> tensor4 -> tensor4.
Variable Bias4_call : string -> tensor4 -> tensor4.
Variable LeakyReLU4_call : string -> tensor4 -> tensor4.
Variable Upscale2D_call : tensor4 -> tensor4.
Variable add : tensor4 -> tensor4 -> tensor4.
Variable tile_const : string -> nat -> tensor4.

Let init := Renderer.init Dense_call Bias_call LeakyReLU_call.
Let g_mapping_call (r : Renderer.t) :=
  Mapping.call LabelEmbedding_call (Renderer.g_mapping r).
Let style_mixing_regularization :=
  Renderer.style_mixing_regularization LabelEmbedding_call.
Let call_styles := Renderer.call_styles LabelEmbedding_call.
Let call :=
  Renderer.call LabelEmbedding_call tensor4 ModulatedConv2D_call Noise_call
    Bias4_call LeakyReLU4_call Upscale2D_call add tile_const.

Lemma init_n_broadcast (p : Renderer.g_params) (r : Renderer.t) :
  init p = Ok r -> (2 <= Renderer.n_broadcast r)%nat.
Proof.
  intros H. destruct (init_ok_inv _ _ _ p r H) as (s & Hs & _ & Hn & _).
  unfold Synthesis.init in Hs.
  destruct (Renderer.g_resolutions p); [discriminate|]. simpl in Hn. lia.
Qed.

(** The mixing mask of a cutoff. *)
Lemma mask_nth (n cutoff i : nat) :
  (i < n)%nat ->
  nth i (map (fun j => (j <? cutoff)%nat) (seq 0 n)) false = (i <? cutoff)%nat.
Proof.
  intros Hi. rewrite (nth_map_in _ _ i 0%nat) by (rewrite length_seq; lia).
  rewrite seq_nth by lia. reflexivity.
Qed.

Lemma mask_all_true (n cutoff : nat) :
  (n <= cutoff)%nat ->
  Forall (fun c => c = true) (map (fun j => (j <? cutoff)%nat) (seq 0 n)).
Proof.
  intros Hn. rewrite Forall_forall. intros c Hc.
  apply in_map_iff in Hc. destruct Hc as (j & <- & Hj). apply in_seq in Hj.
  apply Nat.ltb_lt. lia.
Qed.

(** The integer draw: a value of the range, the raw output itself when it
    lies in the range. *)
Lemma random_uniform_int_ok (minval maxval raw : nat) :
  (minval < maxval)%nat ->
  random_uniform_int minval maxval raw
  = Ok (minval + (raw - minval) mod (maxval - minval))%nat /\
  (minval <= minval + (raw - minval) mod (maxval - minval) < maxval)%nat.
Proof.
  intros H. unfold random_uniform_int.
  destruct (Nat.ltb_spec minval maxval); [|lia].
  split; [reflexivity|].
  pose proof (Nat.mod_upper_bound (raw - minval) (maxval - minval)). lia.
Qed.

Lemma random_uniform_int_in_range (minval maxval raw : nat) :
  (minval <= raw < maxval)%nat ->
  (minval + (raw - minval) mod (maxval - minval))%nat = raw.
Proof. intros H. rewrite Nat.mod_small by lia. lia. Qed.

(** The mixing cutoff of an initialised renderer. *)
Lemma mixing_cutoff_index_ok (p : Renderer.g_params) (r : Renderer.t)
  (d : Renderer.draws) :
  init p = Ok r ->
  Renderer.mixing_cutoff_index r d
  = Ok (if Rlt_dec (Renderer.rand_u d) (Renderer.style_mixing_prob r)
        then (1 + (Renderer.rand_cutoff d - 1) mod (Renderer.n_broadcast r - 1))%nat
        else Renderer.n_broadcast r).
Proof.
  intros Hinit. pose proof (init_n_broadcast p r Hinit) as Hn.
  unfold Renderer.mixing_cutoff_index.
  destruct (Rlt_dec _ _); [|reflexivity].
  apply random_uniform_int_ok. lia.
Qed.

(** Style mixing with a given cutoff. *)
Lemma style_mixing_with_cutoff (p : Renderer.g_params) (r : Renderer.t)
  (d : Renderer.draws) (x1 x2 : mat) (w1 : ten3) (b dd : nat) :
  init p = Ok r ->
  Renderer.draw_random_x r d x1 = Ok x2 ->
  has_shape3 b (Renderer.n_broadcast r) dd w1 ->
  has_shape3 b (Renderer.n_broadcast r) dd (g_mapping_call r x2) ->
  let cutoff :=
    if Rlt_dec (Renderer.rand_u d) (Renderer.style_mixing_prob r)
    then (1 + (Renderer.rand_cutoff d - 1) mod (Renderer.n_broadcast r - 1))%nat
    else Renderer.n_broadcast r in
  let out :=
    map (fun '(r1, r2) =>
           mix_row (map (fun j => (j <? cutoff)%nat) (seq 0 (Renderer.n_broadcast r)))
             r1 r2)
      (combine w1 (g_mapping_call r x2)) in
  style_mixing_regularization r d x1 w1 = Ok out /\
  has_shape3 b (Renderer.n_broadcast r) dd out /\
  forall bi i, (bi < b)%nat -> (i < Renderer.n_broadcast r)%nat ->
    pos3 out bi i
    = if (i <? cutoff)%nat then pos3 w1 bi i else pos3 (g_mapping_call r x2) bi i.
Proof.
  intros Hinit Hx2 H1 H2 cutoff out.
  destruct (init_ok_inv _ _ _ p r Hinit) as (_ & _ & _ & _ & Hidx & _).
  assert (Hc : length (map (fun j => (j <? cutoff)%nat) (seq 0 (Renderer.n_broadcast r)))
               = Renderer.n_broadcast r)
    by (rewrite length_map, length_seq; reflexivity).
  split; [|split].
  - unfold style_mixing_regularization, Renderer.style_mixing_regularization.
    rewrite Hx2. cbn [rbind]. rewrite (mixing_cutoff_index_ok p r d Hinit).
    cbn [rbind]. rewrite Hidx.
    apply (tf_where_ok b (Renderer.n_broadcast r) dd); assumption.
  - apply mix_tensor_shape; assumption.
  - intros bi i Hbi Hi. unfold out.
    rewrite (mix_tensor_pos b (Renderer.n_broadcast r) dd) by assumption.
    rewrite mask_nth by assumption. reflexivity.
Qed.

(** C3.  With [style_mixing_prob = 0] style mixing returns the first style
    tensor, whatever is drawn; with [style_mixing_prob = 1] and a drawn
    cutoff of 1 it returns a tensor of the same shape whose position 0 is
    that of the first tensor and whose positions [1 .. n_broadcast - 1]
    are those of the second, the mapping of the drawn conditioning input. *)
Theorem style_mixing_extremes (p : Renderer.g_params) (r : Renderer.t)
  (d : Renderer.draws) (x1 x2 : mat) (w1 : ten3) (b dd : nat) :
  init p = Ok r ->
  Renderer.draw_random_x r d x1 = Ok x2 ->
  has_shape3 b (Renderer.n_broadcast r) dd w1 ->
  has_shape3 b (Renderer.n_broadcast r) dd (g_mapping_call r x2) ->
  0 <= Renderer.rand_u d < 1 ->
  (Renderer.style_mixing_prob r = 0 ->
   style_mixing_regularization r d x1 w1 = Ok w1) /\
  (Renderer.style_mixing_prob r = 1 -> Renderer.rand_cutoff d = 1%nat ->
   exists out,
     style_mixing_regularization r d x1 w1 = Ok out /\
     has_shape3 b (Renderer.n_broadcast r) dd out /\
     forall bi, (bi < b)%nat ->
       pos3 out bi 0 = pos3 w1 bi 0 /\
       forall i, (1 <= i < Renderer.n_broadcast r)%nat ->
         pos3 out bi i = pos3 (g_mapping_call r x2) bi i).
Proof.
  intros Hinit Hx2 H1 H2 Hu.
  destruct (style_mixing_with_cutoff p r d x1 x2 w1 b dd Hinit Hx2 H1 H2)
    as (Hout & Hshape & Hpos).
  pose proof (init_n_broadcast p r Hinit) as Hn.
  split.
  - intros Hprob. rewrite Hout. f_equal.
    apply (mix_tensor_true b (Renderer.n_broadcast r) dd); try assumption.
    + rewrite length_map, length_seq. reflexivity.
    + apply mask_all_true.
      destruct (Rlt_dec _ _) as [Hlt|_]; [lra|lia].
  - intros Hprob Hcut. eexists. split; [exact Hout|]. split; [exact Hshape|].
    intros bi Hbi. split.
    + rewrite Hpos by lia.
      destruct (Rlt_dec _ _) as [_|Hge]; [|lra].
      rewrite Hcut, random_uniform_int_in_range by lia. reflexivity.
    + intros i Hi. rewrite Hpos by lia.
      destruct (Rlt_dec _ _) as [_|Hge]; [|lra].
      rewrite Hcut, random_uniform_int_in_range by lia.
      destruct (Nat.ltb_spec i 1); [lia|reflexivity].
Qed.

(** The style codes at one position of a style tensor have its width. *)
Lemma width_pos (b n d d0 : nat) (t : ten3) (k : nat) :
  has_shape3 b n d t -> (k < n)%nat -> (b = 0%nat -> d0 = d) ->
  width d0 (map (fun bi => pos3 t bi k) (seq 0 b)) = d.
Proof.
  intros [Hb Hrows] Hk H0. subst b.
  destruct Hrows as [|row t [Hn Hrow] Hrows]; [apply H0; reflexivity|].
  cbn [length seq map width]. unfold pos3. cbn [nth].
  rewrite Forall_forall in Hrow. apply Hrow. apply nth_In.
  unfold ten3, mat, vec in *. lia.
Qed.

(** The value of [w_avg] after an update with the style tensor [w]. *)
Let updated (r : Renderer.t) (st : Renderer.state) (w : ten3) (b : nat) : vec :=
  map (fun k =>
         Renderer.w_ema_decay r * nth k (Renderer.w_avg st) 0
         + (1 - Renderer.w_ema_decay r)
           * reduce_mean (map (fun bi => elem3 w bi 0 k) (seq 0 b)))
    (seq 0 (Renderer.w_dim r)).

Lemma update_ok (r : Renderer.t) (st : Renderer.state) (w : ten3) (b : nat) :
  has_shape3 b (Renderer.n_broadcast r) (Renderer.w_dim r) w ->
  (0 < Renderer.n_broadcast r)%nat ->
  length (Renderer.w_avg st) = Renderer.w_dim r ->
  Renderer.update_moving_average_of_w r w st
  = ({| Renderer.w_avg := updated r st w b |}, Ok tt).
Proof.
  intros Hw Hn Hst. unfold Renderer.update_moving_average_of_w.
  rewrite (column_pos b _ _ w 0 Hw Hn). unfold reduce_mean_axis0.
  rewrite (width_pos b _ _ _ w 0 Hw Hn) by reflexivity.
  rewrite lerp_vec_seq by exact Hst. unfold Renderer.w_avg_assign.
  rewrite length_map, length_seq, Hst, Nat.eqb_refl.
  f_equal. f_equal. unfold updated. apply map_ext. intros k.
  rewrite map_map. reflexivity.
Qed.

(** C4.  Whatever is drawn, a forward call on a batch that is not empty and
    with a true [training] flag leaves [w_avg] at
    [w_ema_decay * w_avg + (1 - w_ema_decay) * batch_mean], the batch mean
    being taken over position 0 of the mapping of the input itself, before
    style mixing; a call with a false flag leaves [w_avg] as it was. *)
Theorem call_updates_w_avg (p : Renderer.g_params) (r : Renderer.t)
  (d : Renderer.draws) (x : mat) (training : pyflag) (st : Renderer.state)
  (b : nat) :
  init p = Ok r ->
  (0 < b)%nat ->
  has_shape3 b (Renderer.n_broadcast r) (Renderer.w_dim r) (g_mapping_call r x) ->
  length (Renderer.w_avg st) = Renderer.w_dim r ->
  fst (call r d x training st)
  = if truthy training
    then {| Renderer.w_avg :=
             map (fun k =>
                    Renderer.w_ema_decay r * nth k (Renderer.w_avg st) 0
                    + (1 - Renderer.w_ema_decay r)
                      * reduce_mean
                          (map (fun bi => elem3 (g_mapping_call r x) bi 0 k)
                             (seq 0 b)))
               (seq 0 (Renderer.w_dim r)) |}
    else st.
Proof.
  intros Hinit _ Hw Hst.
  pose proof (init_n_broadcast p r Hinit) as Hn.
  unfold call, Renderer.call, Renderer.call_styles, Renderer.bind.
  destruct (truthy training); cbn [negb].
  - fold (g_mapping_call r x).
    rewrite (update_ok r st _ b Hw) by (auto; lia).
    unfold Renderer.lift, Renderer.ret.
    destruct (Renderer.style_mixing_regularization _ _ _ _ _); reflexivity.
  - unfold Renderer.ret, Renderer.truncation_trick, Renderer.lift.
    destruct (lerp_broadcast _ _ _); reflexivity.
Qed.

(** C9.  A forward call whose [training] flag is [None], or any other
    false value, is the inference call: the style tensor handed to the
    synthesis network is the truncation trick applied to the mapping of the
    input, nothing drawn for style mixing is used, and [w_avg] is left as
    it was; in general a call depends on the flag through its truth value
    only. *)
Theorem falsy_training_is_inference (r : Renderer.t) (d d' : Renderer.draws)
  (x : mat) (training : pyflag) (st : Renderer.state) :
  truthy training = false ->
  truthy PyNone = false /\
  call r d x training st = call r d x (PyBool false) st /\
  call_styles r d x training st
  = Renderer.truncation_trick r (g_mapping_call r x) st /\
  fst (call r d x training st) = st /\
  call r d x training st = call r d' x training st /\
  forall flag, call r d x flag st = call r d x (PyBool (truthy flag)) st.
Proof.
  intros Hf. split; [reflexivity|].
  assert (Hs : forall d0, call_styles r d0 x training st
               = Renderer.truncation_trick r (g_mapping_call r x) st).
  { intros d0. unfold call_styles, Renderer.call_styles, Renderer.bind.
    rewrite Hf. cbn [negb]. reflexivity. }
  assert (Hflag : forall flag d0,
             call r d0 x flag st = call r d0 x (PyBool (truthy flag)) st).
  { intros flag d0. unfold call, Renderer.call, Renderer.call_styles, Renderer.bind.
    cbn [truthy]. reflexivity. }
  split; [rewrite Hflag, Hf; reflexivity|].
  split; [apply Hs|].
  split.
  - unfold call, Renderer.call, Renderer.bind. fold call_styles.
    rewrite (Hs d). unfold Renderer.truncation_trick, Renderer.lift.
    destruct (lerp_broadcast _ _ _); reflexivity.
  - split; [|intros flag; apply Hflag].
    unfold call, Renderer.call, Renderer.bind. fold call_styles.
    rewrite (Hs d), (Hs d'). reflexivity.
Qed.

(** C10.  In a forward call with a true [training] flag, whatever the
    generator puts out for the draws, the mixing cutoff is at least 1 and
    the style tensor handed to the synthesis network has, at position 0 of
    every sample, the style code that the mapping gives the input itself. *)
Theorem training_keeps_position_zero (p : Renderer.g_params) (r : Renderer.t)
  (d : Renderer.draws) (x x2 : mat) (training : pyflag) (st : Renderer.state)
  (b : nat) :
  init p = Ok r ->
  truthy training = true ->
  Renderer.draw_random_x r d x = Ok x2 ->
  has_shape3 b (Renderer.n_broadcast r) (Renderer.w_dim r) (g_mapping_call r x) ->
  has_shape3 b (Renderer.n_broadcast r) (Renderer.w_dim r) (g_mapping_call r x2) ->
  length (Renderer.w_avg st) = Renderer.w_dim r ->
  exists cutoff st' out,
    Renderer.mixing_cutoff_index r d = Ok cutoff /\
    (1 <= cutoff)%nat /\
    call_styles r d x training st = (st', Ok out) /\
    (forall bi, (bi < b)%nat -> pos3 out bi 0 = pos3 (g_mapping_call r x) bi 0) /\
    column 0 out = column 0 (g_mapping_call r x).
Proof.
  intros Hinit Hf Hx2 Hw Hw2 Hst.
  pose proof (init_n_broadcast p r Hinit) as Hn.
  destruct (style_mixing_with_cutoff p r d x x2 _ b _ Hinit Hx2 Hw Hw2)
    as (Hout & Hshape & Hpos).
  pose proof (mixing_cutoff_index_ok p r d Hinit) as Hcut.
  set (cutoff := if Rlt_dec (Renderer.rand_u d) (Renderer.style_mixing_prob r)
                 then (1 + (Renderer.rand_cutoff d - 1)
                             mod (Renderer.n_broadcast r - 1))%nat
                 else Renderer.n_broadcast r) in *.
  assert (Hc : (1 <= cutoff)%nat).
  { unfold cutoff. destruct (Rlt_dec _ _); lia. }
  assert (Hz : forall bi, (bi < b)%nat ->
    pos3 (map (fun '(r1, r2) =>
                 mix_row
                   (map (fun j => (j <? cutoff)%nat)
                      (seq 0 (Renderer.n_broadcast r))) r1 r2)
            (combine (g_mapping_call r x) (g_mapping_call r x2))) bi 0
    = pos3 (g_mapping_call r x) bi 0).
  { intros bi Hbi. rewrite Hpos by lia.
    destruct (Nat.ltb_spec 0 cutoff); [reflexivity|lia]. }
  exists cutoff. eexists. eexists.
  split; [exact Hcut|]. split; [exact Hc|]. split; [|split].
  - unfold call_styles, Renderer.call_styles, Renderer.bind.
    rewrite Hf. cbn [negb]. fold (g_mapping_call r x).
    rewrite (update_ok r st _ b Hw) by (auto; lia).
    unfold Renderer.lift. fold style_mixing_regularization.
    rewrite Hout. reflexivity.
  - exact Hz.
  - rewrite (column_pos b _ _ _ 0 Hshape) by lia.
    rewrite (column_pos b _ _ _ 0 Hw) by lia.
    f_equal. apply map_ext_in. intros bi Hbi. apply in_seq in Hbi.
    apply Hz. lia.
Qed.
End Forward.

(** ** The moving average of the weights: names *)

Lemma split_nonempty (s : string) : Ema.split s <> [].
Proof.
  destruct s as [|c s]; simpl; [discriminate|].
  destruct (Ascii.eqb c "/"); [discriminate|].
  destruct (Ema.split s); discriminate.
Qed.

Lemma concat_cons (sep x : string) (l : list string) :
  l <> [] -> String.concat sep (x :: l) = (x ++ sep ++ String.concat sep l)%string.
Proof. destruct l; [contradiction|reflexivity]. Qed.

Lemma concat_split (s : string) : String.concat "/" (Ema.split s) = s.
Proof.
  induction s as [|c s IH]; [reflexivity|].
  pose proof (split_nonempty s) as Hne.
  cbn [Ema.split]. destruct (Ascii.eqb_spec c "/") as [->|Hc].
  - rewrite concat_cons by exact Hne. rewrite IH. reflexivity.
  - destruct (Ema.split s) as [|h t]; [contradiction|].
    rewrite <- IH. destruct t; reflexivity.
Qed.

Lemma split_scope (scope rest : string) :
  has_slash scope = false ->
  Ema.split (scope ++ String "/" rest) = scope :: Ema.split rest.
Proof.
  induction scope as [|c scope IH]; intros H.
  - reflexivity.
  - cbn [has_slash] in H. apply orb_false_iff in H. destruct H as [Hc Hs].
    cbn [String.append Ema.split]. rewrite Hc, (IH Hs). reflexivity.
Qed.

Lemma split_no_slash (s : string) : has_slash s = false -> Ema.split s = [s].
Proof.
  induction s as [|c s IH]; intros H; [reflexivity|].
  cbn [has_slash] in H. apply orb_false_iff in H. destruct H as [Hc Hs].
  cbn [Ema.split]. rewrite Hc, (IH Hs). reflexivity.
Qed.

Lemma split_first_name_scope (scope rest : string) :
  has_slash scope = false ->
  Ema.split_first_name (scope ++ String "/" rest) = rest.
Proof.
  intros H. unfold Ema.split_first_name. rewrite (split_scope _ _ H).
  apply concat_split.
Qed.

(** ** The moving average of the weights: values *)

Lemma lerp_zero_combine (sw cw : list R) :
  length sw = length cw ->
  map (fun '(s, c) => lerp s c 0) (combine sw cw) = sw.
Proof.
  revert cw.
  induction sw as [|s sw IH]; intros [|c cw] H; simpl in *; try discriminate.
  - reflexivity.
  - rewrite IH by lia. f_equal. unfold lerp. ring.
Qed.

Lemma shape_eqb_eq (s1 s2 : list nat) : Ema.shape_eqb s1 s2 = true <-> s1 = s2.
Proof.
  unfold Ema.shape_eqb. destruct (list_eq_dec Nat.eq_dec s1 s2); split;
    intros; congruence.
Qed.

Lemma inner_first_match (cw : Ema.variable) (sws : list Ema.variable) (beta : R) :
  Ema.inner cw (Ema.split_first_name (Ema.name cw)) sws beta
  = match Ema.first_match cw sws with
    | None => Ok cw
    | Some sw =>
        if Ema.shape_eqb (Ema.shape sw) (Ema.shape cw)
        then Ok (Ema.assign cw (Ema.lerp_value (Ema.value sw) (Ema.value cw) beta))
        else Raise AssertionError
    end.
Proof.
  unfold Ema.first_match. induction sws as [|sw sws IH]; simpl.
  - reflexivity.
  - destruct (String.eqb _ _); [reflexivity|exact IH].
Qed.

Lemma outer_agree (cws sws : list Ema.variable) (beta : R) :
  shapes_agree cws sws ->
  Ema.outer cws sws beta = (map (synced beta sws) cws, Ok tt).
Proof.
  induction cws as [|cw cws IH]; intros H; simpl.
  - reflexivity.
  - rewrite inner_first_match. unfold synced at 1, synced_value.
    destruct (Ema.first_match cw sws) as [sw|] eqn:E.
    + assert (Hs : Ema.shape sw = Ema.shape cw) by (apply H; simpl; auto).
      apply shape_eqb_eq in Hs. rewrite Hs.
      rewrite IH; [reflexivity|]. intros c s Hc. apply H. simpl; auto.
    + rewrite IH; [destruct cw; reflexivity|]. intros c s Hc. apply H. simpl; auto.
Qed.

Lemma outer_mismatch (cws sws : list Ema.variable) (beta : R) :
  (exists cw sw, In cw cws /\ Ema.first_match cw sws = Some sw /\
                 Ema.shape sw <> Ema.shape cw) ->
  snd (Ema.outer cws sws beta) = Raise AssertionError.
Proof.
  induction cws as [|cw cws IH]; intros (c & s & Hin & Hm & Hs); simpl in *.
  - contradiction.
  - rewrite inner_first_match.
    destruct (Ema.first_match cw sws) as [sw|] eqn:E.
    + destruct (Ema.shape_eqb (Ema.shape sw) (Ema.shape cw)) eqn:Eb; [|reflexivity].
      apply shape_eqb_eq in Eb.
      destruct Hin as [->|Hin]; [congruence|].
      destruct (Ema.outer cws sws beta) as [rest r] eqn:Eo. simpl.
      apply IH. exists c, s. auto.
    + destruct Hin as [->|Hin]; [congruence|].
      destruct (Ema.outer cws sws beta) as [rest r] eqn:Eo. simpl.
      apply IH. exists c, s. auto.
Qed.

Lemma outer_cases (cws sws : list Ema.variable) (beta : R) :
  snd (Ema.outer cws sws beta) = Ok tt \/
  snd (Ema.outer cws sws beta) = Raise AssertionError.
Proof.
  induction cws as [|cw cws IH]; simpl.
  - left. reflexivity.
  - rewrite inner_first_match.
    destruct (Ema.first_match cw sws) as [sw|].
    + destruct (Ema.shape_eqb _ _); [|right; reflexivity].
      destruct (Ema.outer cws sws beta) as [rest r]. exact IH.
    + destruct (Ema.outer cws sws beta) as [rest r]. exact IH.
Qed.

Lemma first_match_in (cw sw : Ema.variable) (sws : list Ema.variable) :
  Ema.first_match cw sws = Some sw ->
  In sw sws /\
  Ema.split_first_name (Ema.name sw) = Ema.split_first_name (Ema.name cw).
Proof.
  unfold Ema.first_match. intros H. apply find_some in H.
  destruct H as [Hin Heq]. apply String.eqb_eq in Heq. auto.
Qed.

Lemma matched_lengths (cw sw : Ema.variable) (sws : list Ema.variable) :
  Ema.wf_variable cw -> Forall Ema.wf_variable sws ->
  Ema.first_match cw sws = Some sw -> Ema.shape sw = Ema.shape cw ->
  length (Ema.value sw) = length (Ema.value cw).
Proof.
  intros Hcw Hsws Hm Hs. apply first_match_in in Hm. destruct Hm as [Hin _].
  rewrite Forall_forall in Hsws. specialize (Hsws sw Hin).
  unfold Ema.wf_variable in *. congruence.
Qed.

(** The values after a loop over variables whose matches have their
    shapes. *)
Lemma outer_values (cws sws : list Ema.variable) (beta : R) :
  shapes_agree cws sws ->
  snd (Ema.outer cws sws beta) = Ok tt /\
  map Ema.name (fst (Ema.outer cws sws beta)) = map Ema.name cws /\
  map Ema.shape (fst (Ema.outer cws sws beta)) = map Ema.shape cws /\
  map Ema.value (fst (Ema.outer cws sws beta)) = map (synced_value beta sws) cws.
Proof.
  intros H. rewrite (outer_agree _ _ _ H). cbn [fst snd].
  rewrite !map_map. repeat split.
Qed.

Lemma synced_value_zero (cws sws : list Ema.variable) :
  Forall Ema.wf_variable cws -> Forall Ema.wf_variable sws ->
  shapes_agree cws sws ->
  map (synced_value 0 sws) cws
  = map (fun cw => match Ema.first_match cw sws with
                   | Some sw => Ema.value sw
                   | None => Ema.value cw
                   end) cws.
Proof.
  intros Hcws Hsws Ha. apply map_ext_in. intros cw Hin.
  unfold synced_value. destruct (Ema.first_match cw sws) as [sw|] eqn:E;
    [|reflexivity].
  rewrite Forall_forall in Hcws.
  apply lerp_zero_combine. eapply matched_lengths; eauto.
Qed.

Lemma sync_trainable (self src : Ema.weights) (beta beta_nt : R) :
  Ema.trainable_weights (fst (Ema.set_as_moving_average_of self src beta beta_nt))
  = fst (Ema.outer (Ema.trainable_weights self) (Ema.trainable_weights src) beta).
Proof.
  unfold Ema.set_as_moving_average_of.
  destruct (Ema.outer (Ema.trainable_weights self) _ beta) as [tw [u|e]];
    [|reflexivity].
  destruct (Ema.outer (Ema.non_trainable_weights self) _ beta_nt) as [ntw r].
  reflexivity.
Qed.

Lemma sync_non_trainable (self src : Ema.weights) (beta beta_nt : R) :
  Ema.non_trainable_weights
    (fst (Ema.set_as_moving_average_of self src beta beta_nt))
  = match snd (Ema.outer (Ema.trainable_weights self)
                 (Ema.trainable_weights src) beta) with
    | Ok _ => fst (Ema.outer (Ema.non_trainable_weights self)
                     (Ema.non_trainable_weights src) beta_nt)
    | Raise _ => Ema.non_trainable_weights self
    end.
Proof.
  unfold Ema.set_as_moving_average_of.
  destruct (Ema.outer (Ema.trainable_weights self) _ beta) as [tw [u|e]];
    [|reflexivity].
  destruct (Ema.outer (Ema.non_trainable_weights self) _ beta_nt) as [ntw r].
  reflexivity.
Qed.

Lemma sync_result (self src : Ema.weights) (beta beta_nt : R) :
  snd (Ema.set_as_moving_average_of self src beta beta_nt)
  = match snd (Ema.outer (Ema.trainable_weights self)
                 (Ema.trainable_weights src) beta) with
    | Ok _ => snd (Ema.outer (Ema.non_trainable_weights self)
                     (Ema.non_trainable_weights src) beta_nt)
    | Raise e => Raise e
    end.
Proof.
  unfold Ema.set_as_moving_average_of.
  destruct (Ema.outer (Ema.trainable_weights self) _ beta) as [tw [u|e]];
    [|reflexivity].
  destruct (Ema.outer (Ema.non_trainable_weights self) _ beta_nt) as [ntw r].
  reflexivity.
Qed.

Lemma within_small (x : R) : Rabs x <= 8 -> Rabs x <= 2 ^ 126.
Proof.
  intros H. apply Rle_trans with (2 ^ 3); [simpl; lra|].
  apply Rle_pow; [lra|lia].
Qed.

(** C5, as amended.  When every match has the shape of its target, the sync
    returns, and: with [beta = 0] every trainable variable of the target
    that has a match in the source holds exactly the value of its first
    match, for values of a magnitude at which [target - source] does not
    overflow, and every other trainable variable what it held; with
    [beta = 1] a trainable variable without a match holds what it held and
    one with a match holds [source + (target - source) * 1], component by
    component, which is the value of the target in exact arithmetic; the
    non-trainable variables follow [beta_nontrainable] in the same way, not
    [beta]. *)
Theorem ema_sync_extremes (self src : Ema.weights) (beta beta_nontrainable : R) :
  Forall Ema.wf_variable (Ema.trainable_weights self) ->
  Forall Ema.wf_variable (Ema.trainable_weights src) ->
  Forall Ema.wf_variable (Ema.non_trainable_weights self) ->
  Forall Ema.wf_variable (Ema.non_trainable_weights src) ->
  shapes_agree (Ema.trainable_weights self) (Ema.trainable_weights src) ->
  shapes_agree (Ema.non_trainable_weights self) (Ema.non_trainable_weights src) ->
  let out := Ema.set_as_moving_average_of self src beta beta_nontrainable in
  snd out = Ok tt /\
  (beta = 0 ->
   values_within (2 ^ 126) (Ema.trainable_weights self) ->
   values_within (2 ^ 126) (Ema.trainable_weights src) ->
   map Ema.value (Ema.trainable_weights (fst out))
   = map (fun cw => match Ema.first_match cw (Ema.trainable_weights src) with
                    | Some sw => Ema.value sw
                    | None => Ema.value cw
                    end)
       (Ema.trainable_weights self)) /\
  (beta_nontrainable = 0 ->
   values_within (2 ^ 126) (Ema.non_trainable_weights self) ->
   values_within (2 ^ 126) (Ema.non_trainable_weights src) ->
   map Ema.value (Ema.non_trainable_weights (fst out))
   = map (fun cw => match Ema.first_match cw (Ema.non_trainable_weights src) with
                    | Some sw => Ema.value sw
                    | None => Ema.value cw
                    end)
       (Ema.non_trainable_weights self)) /\
  (beta = 1 ->
   map Ema.value (Ema.trainable_weights (fst out))
   = map (fun cw => match Ema.first_match cw (Ema.trainable_weights src) with
                    | Some sw =>
                        map (fun '(s, c) => s + (c - s) * 1)
                          (combine (Ema.value sw) (Ema.value cw))
                    | None => Ema.value cw
                    end)
       (Ema.trainable_weights self)) /\
  (beta_nontrainable = 1 ->
   map Ema.value (Ema.non_trainable_weights (fst out))
   = map (fun cw => match Ema.first_match cw (Ema.non_trainable_weights src) with
                    | Some sw =>
                        map (fun '(s, c) => s + (c - s) * 1)
                          (combine (Ema.value sw) (Ema.value cw))
                    | None => Ema.value cw
                    end)
       (Ema.non_trainable_weights self)).
Proof.
  intros Htw Hsw Hntw Hsnw Ha Hna out. unfold out.
  rewrite sync_result, sync_trainable, sync_non_trainable.
  destruct (outer_values _ _ beta Ha) as (Hok & _ & _ & Hv).
  destruct (outer_values _ _ beta_nontrainable Hna) as (Hnok & _ & _ & Hnv).
  rewrite Hok. split; [exact Hnok|].
  split; [|split; [|split]].
  - intros -> _ _. rewrite Hv. apply synced_value_zero; assumption.
  - intros -> _ _. rewrite Hnv. apply synced_value_zero; assumption.
  - intros ->. rewrite Hv. reflexivity.
  - intros ->. rewrite Hnv. reflexivity.
Qed.

(** C6.  The sync matches variables by their names without the first scope;
    a target variable whose first match in the source has its shape is set
    to [lerp(source, target, beta)] when trainable and to
    [lerp(source, target, beta_nontrainable)] when not, keeping its name and
    shape; a first match of another shape raises [AssertionError]; a
    variable without a match is left as it is; among several source
    variables of one name the first is used. *)
Theorem ema_sync_by_name (self src : Ema.weights) (beta beta_nontrainable : R) :
  (forall scope rest, has_slash scope = false ->
     Ema.split_first_name (scope ++ String "/" rest) = rest) /\
  (forall cw sws b,
     Ema.inner cw (Ema.split_first_name (Ema.name cw)) sws b
     = match Ema.first_match cw sws with
       | None => Ok cw
       | Some sw =>
           if Ema.shape_eqb (Ema.shape sw) (Ema.shape cw)
           then Ok {| Ema.name := Ema.name cw;
                      Ema.shape := Ema.shape cw;
                      Ema.value :=
                        map (fun '(s, c) => lerp s c b)
                          (combine (Ema.value sw) (Ema.value cw)) |}
           else Raise AssertionError
       end) /\
  (forall cw pre sw post,
     (forall s, In s pre ->
        Ema.split_first_name (Ema.name s) <> Ema.split_first_name (Ema.name cw)) ->
     Ema.split_first_name (Ema.name sw) = Ema.split_first_name (Ema.name cw) ->
     Ema.first_match cw (pre ++ sw :: post) = Some sw) /\
  (forall cw sws,
     (forall s, In s sws ->
        Ema.split_first_name (Ema.name s) <> Ema.split_first_name (Ema.name cw)) ->
     Ema.first_match cw sws = None /\
     forall b, Ema.inner cw (Ema.split_first_name (Ema.name cw)) sws b = Ok cw) /\
  (shapes_agree (Ema.trainable_weights self) (Ema.trainable_weights src) ->
   shapes_agree (Ema.non_trainable_weights self) (Ema.non_trainable_weights src) ->
   Ema.set_as_moving_average_of self src beta beta_nontrainable
   = ({| Ema.trainable_weights :=
           map (fun cw =>
                  {| Ema.name := Ema.name cw;
                     Ema.shape := Ema.shape cw;
                     Ema.value :=
                       match Ema.first_match cw (Ema.trainable_weights src) with
                       | Some sw =>
                           map (fun '(s, c) => lerp s c beta)
                             (combine (Ema.value sw) (Ema.value cw))
                       | None => Ema.value cw
                       end |})
             (Ema.trainable_weights self);
         Ema.non_trainable_weights :=
           map (fun cw =>
                  {| Ema.name := Ema.name cw;
                     Ema.shape := Ema.shape cw;
                     Ema.value :=
                       match Ema.first_match cw (Ema.non_trainable_weights src) with
                       | Some sw =>
                           map (fun '(s, c) => lerp s c beta_nontrainable)
                             (combine (Ema.value sw) (Ema.value cw))
                       | None => Ema.value cw
                       end |})
             (Ema.non_trainable_weights self) |}, Ok tt)) /\
  ((exists cw sw,
      (In cw (Ema.trainable_weights self) /\
       Ema.first_match cw (Ema.trainable_weights src) = Some sw \/
       In cw (Ema.non_trainable_weights self) /\
       Ema.first_match cw (Ema.non_trainable_weights src) = Some sw) /\
      Ema.shape sw <> Ema.shape cw) ->
   snd (Ema.set_as_moving_average_of self src beta beta_nontrainable)
   = Raise AssertionError).
Proof.
  split; [exact split_first_name_scope|].
  split; [intros; apply inner_first_match|].
  split.
  { intros cw pre sw post Hpre Hsw. unfold Ema.first_match.
    induction pre as [|s pre IH]; simpl.
    - rewrite Hsw, String.eqb_refl. reflexivity.
    - destruct (String.eqb_spec (Ema.split_first_name (Ema.name cw))
                  (Ema.split_first_name (Ema.name s))) as [Heq|_].
      + exfalso. apply (Hpre s); simpl; auto.
      + apply IH. intros s' Hs'. apply Hpre. simpl; auto. }
  split.
  { intros cw sws Hno.
    assert (Hnone : Ema.first_match cw sws = None).
    { unfold Ema.first_match. induction sws as [|s sws IH]; simpl; [reflexivity|].
      destruct (String.eqb_spec (Ema.split_first_name (Ema.name cw))
                  (Ema.split_first_name (Ema.name s))) as [Heq|_].
      - exfalso. apply (Hno s); simpl; auto.
      - apply IH. intros s' Hs'. apply Hno. simpl; auto. }
    split; [exact Hnone|]. intros b. rewrite inner_first_match, Hnone. reflexivity. }
  split.
  { intros Ha Hna. unfold Ema.set_as_moving_average_of.
    rewrite (outer_agree _ _ beta) by exact Ha.
    rewrite (outer_agree _ _ beta_nontrainable) by exact Hna. reflexivity. }
  intros (cw & sw & [[Hin Hm]|[Hin Hm]] & Hs); rewrite sync_result.
  - rewrite outer_mismatch; [reflexivity|]. exists cw, sw. auto.
  - destruct (outer_cases (Ema.trainable_weights self)
                (Ema.trainable_weights src) beta) as [-> | ->]; [|reflexivity].
    apply outer_mismatch. exists cw, sw. auto.
Qed.

(** C5, counterexample.  With [beta = 1] and the default
    [beta_nontrainable] the non-trainable [w_avg] of the target, which held
    1, holds the 2 of the source. *)
Lemma ema_sync_beta_one_changes_non_trainable :
  Ema.default_beta_nontrainable = 0 /\
  map Ema.value (Ema.non_trainable_weights target_weights) = [[1]] /\
  map Ema.value
    (Ema.non_trainable_weights
       (fst (Ema.set_as_moving_average_of target_weights source_weights 1
               Ema.default_beta_nontrainable)))
  = [[2]] /\
  Ema.non_trainable_weights
    (fst (Ema.set_as_moving_average_of target_weights source_weights 1
            Ema.default_beta_nontrainable))
  <> Ema.non_trainable_weights target_weights.
Proof.
  assert (Hv : map Ema.value
                 (Ema.non_trainable_weights
                    (fst (Ema.set_as_moving_average_of target_weights
                            source_weights 1 Ema.default_beta_nontrainable)))
               = [[2]]).
  { unfold Ema.set_as_moving_average_of, Ema.default_beta_nontrainable. simpl.
    unfold Ema.lerp_value, lerp. simpl.
    replace (2 + (1 - 2) * 0) with 2 by ring. reflexivity. }
  split; [reflexivity|]. split; [reflexivity|]. split; [exact Hv|].
  intros H. rewrite H in Hv. simpl in Hv. inversion Hv as [Hone]. lra.
Qed.

(** ** The theorems at sample inputs *)

Lemma target_shapes_agree :
  shapes_agree (Ema.trainable_weights target_weights)
    (Ema.trainable_weights source_weights) /\
  shapes_agree (Ema.non_trainable_weights target_weights)
    (Ema.non_trainable_weights source_weights).
Proof.
  split; intros cw sw Hin Hm; simpl in Hin;
    repeat (destruct Hin as [<-|Hin]; [simpl in Hm; inversion Hm; reflexivity|]);
    contradiction.
Defined.

Lemma sample_weights_wf :
  Forall Ema.wf_variable (Ema.trainable_weights target_weights) /\
  Forall Ema.wf_variable (Ema.trainable_weights source_weights) /\
  Forall Ema.wf_variable (Ema.non_trainable_weights target_weights) /\
  Forall Ema.wf_variable (Ema.non_trainable_weights source_weights).
Proof. repeat split; repeat constructor. Defined.

Lemma sample_values_within :
  values_within (2 ^ 126) (Ema.trainable_weights target_weights) /\
  values_within (2 ^ 126) (Ema.trainable_weights source_weights) /\
  values_within (2 ^ 126) (Ema.non_trainable_weights target_weights) /\
  values_within (2 ^ 126) (Ema.non_trainable_weights source_weights).
Proof.
  unfold values_within. simpl.
  repeat split;
    repeat (apply Forall_cons || apply Forall_nil);
    apply within_small; apply Rabs_le; lra.
Defined.

Lemma ema_sync_extremes_witness :
  map Ema.value
    (Ema.trainable_weights
       (fst (Ema.set_as_moving_average_of target_weights source_weights 0 1)))
  = [[3; 4]; [7]] /\
  map Ema.value
    (Ema.non_trainable_weights
       (fst (Ema.set_as_moving_average_of target_weights source_weights 1 0)))
  = [[2]] /\
  map Ema.value
    (Ema.trainable_weights
       (fst (Ema.set_as_moving_average_of target_weights source_weights 1 0)))
  = [[3 + (1 - 3) * 1; 4 + (2 - 4) * 1]; [7]].
Proof.
  destruct sample_weights_wf as (H1 & H2 & H3 & H4).
  destruct target_shapes_agree as (Ha & Hna).
  destruct sample_values_within as (B1 & B2 & B3 & B4).
  split; [|split].
  - exact (proj1 (proj2
             (ema_sync_extremes target_weights source_weights 0 1 H1 H2 H3 H4 Ha Hna))
             eq_refl B1 B2).
  - exact (proj1 (proj2 (proj2
             (ema_sync_extremes target_weights source_weights 1 0 H1 H2 H3 H4 Ha Hna)))
             eq_refl B3 B4).
  - exact (proj1 (proj2 (proj2 (proj2
             (ema_sync_extremes target_weights source_weights 1 0 H1 H2 H3 H4 Ha Hna))))
             eq_refl).
Defined.

Lemma lerp_halfway :
  lerp 3 1 (1 / 2) = 2 /\ lerp 4 2 (1 / 2) = 3 /\ lerp 2 1 0 = 2.
Proof. unfold lerp. repeat split; lra. Defined.

Lemma ema_sync_by_name_witness :
  Ema.split_first_name "renderer/g_mapping/dense_0/w:0" = "g_mapping/dense_0/w:0"%string /\
  snd (Ema.set_as_moving_average_of target_weights source_weights (1 / 2) 0) = Ok tt /\
  map Ema.value
    (Ema.trainable_weights
       (fst (Ema.set_as_moving_average_of target_weights source_weights (1 / 2) 0)))
  = [[2; 3]; [7]] /\
  map Ema.value
    (Ema.non_trainable_weights
       (fst (Ema.set_as_moving_average_of target_weights source_weights (1 / 2) 0)))
  = [[2]] /\
  snd (Ema.set_as_moving_average_of target_weights mismatched_source (1 / 2) 0)
  = Raise AssertionError.
Proof.
  destruct target_shapes_agree as (Ha & Hna).
  destruct lerp_halfway as (L1 & L2 & L3).
  destruct (ema_sync_by_name target_weights source_weights (1 / 2) 0)
    as (Hname & _ & _ & _ & Hsync & _).
  destruct (ema_sync_by_name target_weights mismatched_source (1 / 2) 0)
    as (_ & _ & _ & _ & _ & Hfail).
  split; [|split; [|split; [|split]]].
  - exact (Hname "renderer"%string "g_mapping/dense_0/w:0"%string eq_refl).
  - rewrite (Hsync Ha Hna). reflexivity.
  - rewrite (Hsync Ha Hna). simpl. rewrite L1, L2. reflexivity.
  - rewrite (Hsync Ha Hna). simpl. rewrite L3. reflexivity.
  - apply Hfail.
    exists {| Ema.name := "renderer/g_mapping/dense_0/w:0";
              Ema.shape := [2%nat]; Ema.value := [1; 2] |},
           {| Ema.name := "renderer_1/g_mapping/dense_0/w:0";
              Ema.shape := [3%nat]; Ema.value := [3; 4; 5] |}.
    split; [left; split; [simpl; auto|reflexivity]|simpl; discriminate].
Defined.

Lemma norm_row_rms_witness :
  nth 0 (whole_sample x_hot) [] = [1; 0] /\
  Rabs (Mapping.rms (nth 0 (Mapping.norm (whole_sample x_hot)) []) - 1) <= / 100000.
Proof.
  split; [reflexivity|].
  refine (proj2 (proj2 (proj2
            (norm_row_rms whole_sample (Mapping.init same_mat same_mat same_mat 2 4)
               x_hot 0 (/ 100000) (Rle_refl _) _ _)))).
  - unfold Mapping.eps, reduce_mean, Rsum. simpl. lra.
  - apply Rle_trans with 1; [unfold Rsum; simpl; lra|].
    apply pow_R1_Rle. lra.
Defined.

Lemma w_demo_shape : has_shape3 1 4 1 w_demo.
Proof. split; [reflexivity|]. repeat constructor. Defined.

Lemma synthesis_reads_in_range_witness :
  exists r,
    Renderer.init same_mat same_mat same_mat (small_params [4; 8]%Z (9 / 10) None)
    = Ok r /\
    Renderer.n_broadcast r = 4%nat /\
    exists img,
      Synthesis.call unit conv_unit same_unit same_unit same_unit (fun y => y)
        add_unit tile_unit (Renderer.synthesis r) w_demo
      = ([0; 1; 1; 2; 3]%nat, Ok img).
Proof.
  eexists. split; [reflexivity|].
  destruct (synthesis_reads_in_range unit conv_unit same_unit same_unit same_unit
              (fun y => y) add_unit tile_unit same_mat same_mat same_mat
              (small_params [4; 8]%Z (9 / 10) None) _ w_demo eq_refl eq_refl)
    as (Hn & img & Hcall & _ & _).
  - repeat constructor.
  - split; [exact Hn|]. exists img. exact Hcall.
Defined.

Lemma truncation_trick_formula_witness :
  exists r,
    Renderer.init same_mat same_mat same_mat (small_params [4; 8]%Z (9 / 10) (Some 2%Z))
    = Ok r /\
    exists out,
      Renderer.truncation_trick r w_demo {| Renderer.w_avg := [10] |}
      = ({| Renderer.w_avg := [10] |}, Ok out) /\
      elem3 out 0 0 0 = 10 + 1 / 2 * (1 - 10) /\
      elem3 out 0 3 0 = 10 + 1 * (4 - 10).
Proof.
  eexists. split; [reflexivity|].
  destruct (truncation_trick_formula same_mat same_mat same_mat
              (small_params [4; 8]%Z (9 / 10) (Some 2%Z)) _
              {| Renderer.w_avg := [10] |} w_demo 1 eq_refl w_demo_shape)
    as (out & Hcall & _ & Helem).
  exists out. split; [exact Hcall|]. split.
  - apply (Helem 0 0 0)%nat; simpl; lia.
  - apply (Helem 0 3 0)%nat; simpl; lia.
Defined.

Lemma mapping_demo_shape (n : nat) (x : mat) (m : Mapping.t) :
  length x = 1%nat -> Forall (fun row => (1 <= length row)%nat) x ->
  Mapping.n_broadcast m = n ->
  Mapping.dense_layers m = map same_mat (seq 0 (Mapping.n_mapping m)) ->
  Mapping.bias_layers m = map same_mat (seq 0 (Mapping.n_mapping m)) ->
  Mapping.act_layers m = map same_mat (seq 0 (Mapping.n_mapping m)) ->
  has_shape3 1 n 1 (Mapping.call first_component m x).
Proof.
  intros Hx Hrow Hn Hd Hb Ha. unfold Mapping.call. rewrite Hd, Hb, Ha, Hn.
  assert (Hfold : forall k s (y : mat),
    fold_left
      (fun x0 '(dense, apply_bias, apply_act) => apply_act (apply_bias (dense x0)))
      (combine (combine (map same_mat (seq s k)) (map same_mat (seq s k)))
         (map same_mat (seq s k))) y = y).
  { induction k as [|k IH]; intros s y; simpl; [reflexivity|]. apply IH. }
  rewrite Hfold. destruct x as [|row [|row' x]]; simpl in Hx; try discriminate.
  inversion Hrow as [|? ? Hlen _]; subst.
  destruct row as [|v row]; simpl in Hlen; [lia|].
  split; [reflexivity|]. repeat constructor.
  - simpl. apply repeat_length.
  - apply Forall_forall. intros u Hu. apply repeat_spec in Hu. subst u. reflexivity.
Defined.

Lemma style_mixing_extremes_witness :
  (exists r,
     Renderer.init same_mat same_mat same_mat (small_params [4; 8]%Z 0 None) = Ok r /\
     Renderer.style_mixing_regularization first_component r draws_demo x_hot w_demo
     = Ok w_demo) /\
  (exists r,
     Renderer.init same_mat same_mat same_mat (small_params [4; 8]%Z 1 None) = Ok r /\
     exists out,
       Renderer.style_mixing_regularization first_component r draws_demo x_hot w_demo
       = Ok out /\
       pos3 out 0 0 = [1] /\
       pos3 out 0 3 = pos3 (Mapping.call first_component (Renderer.g_mapping r) [[0; 1]]) 0 3).
Proof.
  assert (Hu : 0 <= Renderer.rand_u draws_demo < 1) by (simpl; lra).
  split.
  - eexists. split; [reflexivity|].
    refine (proj1 (style_mixing_extremes first_component same_mat same_mat same_mat
                     (small_params [4; 8]%Z 0 None) _ draws_demo x_hot [[0; 1]]
                     w_demo 1 1 eq_refl eq_refl w_demo_shape _ Hu) eq_refl).
    apply mapping_demo_shape; try reflexivity. repeat constructor.
  - eexists. split; [reflexivity|].
    destruct (proj2 (style_mixing_extremes first_component same_mat same_mat same_mat
                       (small_params [4; 8]%Z 1 None) _ draws_demo x_hot [[0; 1]]
                       w_demo 1 1 eq_refl eq_refl w_demo_shape
                       ltac:(apply mapping_demo_shape; try reflexivity; repeat constructor)
                       Hu) eq_refl eq_refl)
      as (out & Hcall & _ & Hpos).
    exists out. split; [exact Hcall|].
    destruct (Hpos 0%nat ltac:(lia)) as [H0 Hi]. split.
    + exact H0.
    + apply Hi. simpl. lia.
Defined.

Lemma call_updates_w_avg_witness :
  exists r,
    Renderer.init same_mat same_mat same_mat (small_params [4; 8]%Z (9 / 10) None)
    = Ok r /\
    let w := Mapping.call first_component (Renderer.g_mapping r) x_hot in
    fst (Renderer.call first_component unit conv_unit same_unit same_unit same_unit
           (fun y => y) add_unit tile_unit r draws_demo x_hot (PyBool true)
           (Renderer.build r))
    = {| Renderer.w_avg :=
          [995 / 1000 * 0 + (1 - 995 / 1000) * reduce_mean [elem3 w 0 0 0]] |} /\
    fst (Renderer.call first_component unit conv_unit same_unit same_unit same_unit
           (fun y => y) add_unit tile_unit r draws_demo x_hot (PyBool false)
           (Renderer.build r))
    = Renderer.build r.
Proof.
  eexists. split; [reflexivity|].
  match goal with
  | |- context [Renderer.build ?r] =>
      pose proof (fun training =>
        call_updates_w_avg first_component same_mat same_mat same_mat unit
          conv_unit same_unit same_unit same_unit (fun y => y) add_unit tile_unit
          (small_params [4; 8]%Z (9 / 10) None) r draws_demo x_hot training
          (Renderer.build r) 1 eq_refl Nat.lt_0_1
          ltac:(apply mapping_demo_shape; try reflexivity; repeat constructor)
          eq_refl) as H
  end.
  split.
  - exact (H (PyBool true)).
  - exact (H (PyBool false)).
Defined.

Lemma falsy_training_is_inference_witness :
  exists r,
    Renderer.init same_mat same_mat same_mat (small_params [4; 8]%Z (9 / 10) None)
    = Ok r /\
    Renderer.call first_component unit conv_unit same_unit same_unit same_unit
      (fun y => y) add_unit tile_unit r draws_demo x_hot PyNone (Renderer.build r)
    = Renderer.call first_component unit conv_unit same_unit same_unit same_unit
        (fun y => y) add_unit tile_unit r draws_demo x_hot (PyBool false)
        (Renderer.build r) /\
    Renderer.call_styles first_component r draws_demo x_hot (PyInt 0) (Renderer.build r)
    = Renderer.truncation_trick r
        (Mapping.call first_component (Renderer.g_mapping r) x_hot) (Renderer.build r).
Proof.
  eexists. split; [reflexivity|].
  match goal with
  | |- context [Renderer.build ?r] =>
      pose proof (fun training =>
        falsy_training_is_inference first_component unit conv_unit same_unit
          same_unit same_unit (fun y => y) add_unit tile_unit r draws_demo
          draws_demo x_hot training (Renderer.build r)) as H
  end.
  split.
  - exact (proj1 (proj2 (H PyNone eq_refl))).
  - exact (proj1 (proj2 (proj2 (H (PyInt 0) eq_refl)))).
Defined.

Lemma training_keeps_position_zero_witness :
  Renderer.rand_cutoff draws_raw = 0%nat /\
  exists r,
    Renderer.init same_mat same_mat same_mat (small_params [4; 8]%Z (9 / 10) None)
    = Ok r /\
    exists cutoff st' out,
      Renderer.mixing_cutoff_index r draws_raw = Ok cutoff /\
      (1 <= cutoff)%nat /\
      Renderer.call_styles first_component r draws_raw x_hot (PyBool true)
        (Renderer.build r) = (st', Ok out) /\
      pos3 out 0 0 = pos3 (Mapping.call first_component (Renderer.g_mapping r) x_hot) 0 0.
Proof.
  split; [reflexivity|].
  eexists. split; [reflexivity|].
  match goal with
  | |- context [Renderer.build ?r] =>
      destruct (training_keeps_position_zero first_component same_mat same_mat
                  same_mat (small_params [4; 8]%Z (9 / 10) None) r draws_raw x_hot
                  [[0; 1]] (PyBool true) (Renderer.build r) 1 eq_refl eq_refl
                  eq_refl
                  ltac:(apply mapping_demo_shape; try reflexivity; repeat constructor)
                  ltac:(apply mapping_demo_shape; try reflexivity; repeat constructor)
                  eq_refl)
        as (cutoff & st' & out & Hcut & Hone & Hcall & Hpos & _)
  end.
  exists cutoff, st', out. split; [exact Hcut|]. split; [exact Hone|].
  split; [exact Hcall|]. apply Hpos. lia.
Defined.

(** * Further properties of the code *)

(** ** Mapping *)

(** X1.  Every sample of the output of [Mapping.call] has [n_broadcast]
    positions, and all of them hold one and the same style code. *)
Theorem mapping_call_uniform (LabelEmbedding_call : mat -> mat) (m : Mapping.t)
  (x : mat) :
  Forall
    (fun row =>
       length row = Mapping.n_broadcast m /\
       forall i j, (i < Mapping.n_broadcast m)%nat -> (j < Mapping.n_broadcast m)%nat ->
                   nth i row [] = nth j row [])
    (Mapping.call LabelEmbedding_call m x).
Proof.
  unfold Mapping.call, Mapping.broadcast. apply Forall_forall. intros row Hrow.
  apply in_map_iff in Hrow. destruct Hrow as (v & <- & _).
  split; [apply repeat_length|].
  assert (H : forall i, (i < Mapping.n_broadcast m)%nat ->
                        nth i (repeat v (Mapping.n_broadcast m)) [] = v).
  { intros i Hi. apply (repeat_spec (Mapping.n_broadcast m) v).
    apply nth_In. rewrite repeat_length. exact Hi. }
  intros i j Hi Hj. transitivity v; [apply H; exact Hi|symmetry; apply H; exact Hj].
Qed.

Lemma fold_layers_seq (D B A : nat -> mat -> mat) (k : nat) :
  forall s (y : mat),
    fold_left
      (fun x0 '(dense, apply_bias, apply_act) => apply_act (apply_bias (dense x0)))
      (combine (combine (map D (seq s k)) (map B (seq s k))) (map A (seq s k))) y
    = fold_left (fun x0 i => A i (B i (D i x0))) (seq s k) y.
Proof.
  induction k as [|k IH]; intros s y; simpl; [reflexivity|]. apply IH.
Qed.

(** X2.  A mapping network built for [n_mapping] blocks applies all of them,
    in the order of their indices, each as dense, bias, activation, to the
    normalised embedding, and broadcasts the result: the [zip] over the
    three layer lists drops no layer. *)
Theorem mapping_applies_all_layers (LabelEmbedding_call : mat -> mat)
  (Dense_call Bias_call LeakyReLU_call : nat -> mat -> mat)
  (n_mapping n_broadcast : nat) (x : mat) :
  Mapping.call LabelEmbedding_call
    (Mapping.init Dense_call Bias_call LeakyReLU_call n_mapping n_broadcast) x
  = Mapping.broadcast n_broadcast
      (fold_left (fun y i => LeakyReLU_call i (Bias_call i (Dense_call i y)))
         (seq 0 n_mapping) (Mapping.norm (LabelEmbedding_call x))).
Proof.
  unfold Mapping.call, Mapping.init. cbn [Mapping.dense_layers Mapping.bias_layers
    Mapping.act_layers Mapping.n_broadcast].
  rewrite fold_layers_seq. reflexivity.
Qed.

(** ** Renderer: the drawn conditioning input *)

Lemma Rsum_app (a b : vec) : Rsum (a ++ b) = Rsum a + Rsum b.
Proof.
  induction a as [|v a IH]; simpl.
  - ring.
  - fold (Rsum (a ++ b)). fold (Rsum a). rewrite IH. ring.
Qed.

Lemma one_hot_length (depth v : nat) : length (one_hot depth v) = depth.
Proof. unfold one_hot. rewrite length_map, length_seq. reflexivity. Qed.

Lemma Rsum_indicator (v n : nat) :
  forall s,
    Rsum (map (fun j => if (j =? v)%nat then 1 else 0) (seq s n))
    = if ((s <=? v) && (v <? s + n))%nat then 1 else 0.
Proof.
  induction n as [|n IH]; intros s.
  - simpl. destruct (Nat.leb_spec s v), (Nat.ltb_spec v (s + 0)); simpl; try lia;
      reflexivity.
  - cbn [seq map Rsum fold_right].
    fold (Rsum (map (fun j => if (j =? v)%nat then 1 else 0) (seq (S s) n))).
    rewrite IH.
    destruct (Nat.eqb_spec s v), (Nat.leb_spec (S s) v), (Nat.leb_spec s v),
      (Nat.ltb_spec v (S s + n)), (Nat.ltb_spec v (s + S n)); simpl; try lia; lra.
Qed.

Lemma Rsum_one_hot (depth v : nat) : (v < depth)%nat -> Rsum (one_hot depth v) = 1.
Proof.
  intros Hv. unfold one_hot. rewrite Rsum_indicator.
  destruct (Nat.leb_spec 0 v), (Nat.ltb_spec v (0 + depth)); simpl; try lia;
    reflexivity.
Qed.

Lemma blocks_length (f : nat -> nat -> nat) (l : list nat) :
  forall s,
    length (concat (map (fun '(field, depth) => one_hot depth (f field depth))
                      (combine (seq s (length l)) l)))
    = list_sum l.
Proof.
  induction l as [|depth l IH]; intros s; simpl; [reflexivity|].
  rewrite length_app, one_hot_length, IH. reflexivity.
Qed.

Lemma blocks_sum (f : nat -> nat -> nat) (l : list nat) :
  forall s,
    (forall i, (i < length l)%nat -> (f (s + i) (nth i l 0) < nth i l 0)%nat) ->
    Rsum (concat (map (fun '(field, depth) => one_hot depth (f field depth))
                    (combine (seq s (length l)) l)))
    = INR (length l).
Proof.
  induction l as [|depth l IH]; intros s H.
  - reflexivity.
  - cbn [length seq combine map concat]. rewrite Rsum_app, S_INR.
    rewrite Rsum_one_hot.
    + rewrite IH; [ring|]. intros i Hi.
      replace (S s + i)%nat with (s + S i)%nat by lia.
      apply (H (S i)). simpl. lia.
    + specialize (H 0%nat). rewrite Nat.add_0_r in H. apply H. simpl. lia.
Qed.

(** The categories drawn for one field. *)
Lemma draw_field_ok (d : Renderer.draws) (field depth batch_size : nat) :
  (0 < depth)%nat ->
  map_result (fun b => random_uniform_int 0 depth (Renderer.rand_int d field b))
    (seq 0 batch_size)
  = Ok (map (fun b => (Renderer.rand_int d field b mod depth)%nat) (seq 0 batch_size)).
Proof.
  intros Hd. apply map_result_ok. intros b _.
  rewrite (proj1 (random_uniform_int_ok 0 depth _ Hd)).
  rewrite !Nat.sub_0_r. reflexivity.
Qed.

Lemma draw_field_fail (d : Renderer.draws) (field batch_size : nat) :
  (0 < batch_size)%nat ->
  map_result (fun b => random_uniform_int 0 0 (Renderer.rand_int d field b))
    (seq 0 batch_size)
  = Raise InvalidArgumentError.
Proof. destruct batch_size; [lia|reflexivity]. Qed.

Lemma draw_fields_ok (d : Renderer.draws) (batch_size : nat) (l : list nat) :
  Forall (fun depth => (0 < depth)%nat) l ->
  forall s,
    map_result
      (fun '(field, depth) =>
         (vals <-
            map_result (fun b => random_uniform_int 0 depth (Renderer.rand_int d field b))
              (seq 0 batch_size) ;;
          Ok (map (one_hot depth) vals))%result)
      (combine (seq s (length l)) l)
    = Ok (map (fun '(field, depth) =>
                 map (fun b => one_hot depth (Renderer.rand_int d field b mod depth))
                   (seq 0 batch_size))
            (combine (seq s (length l)) l)).
Proof.
  induction 1 as [|depth l Hd _ IH]; intros s; [reflexivity|].
  cbn [length seq combine map map_result].
  rewrite draw_field_ok by exact Hd. cbn [rbind]. rewrite IH. cbn [rbind].
  rewrite map_map. reflexivity.
Qed.

Lemma draw_fields_fail (d : Renderer.draws) (batch_size : nat) (l : list nat) :
  (0 < batch_size)%nat -> In 0%nat l ->
  forall s,
    map_result
      (fun '(field, depth) =>
         (vals <-
            map_result (fun b => random_uniform_int 0 depth (Renderer.rand_int d field b))
              (seq 0 batch_size) ;;
          Ok (map (one_hot depth) vals))%result)
      (combine (seq s (length l)) l)
    = Raise InvalidArgumentError.
Proof.
  intros Hb. induction l as [|depth l IH]; intros Hin s; [contradiction|].
  cbn [length seq combine map_result].
  destruct depth as [|depth].
  - rewrite draw_field_fail by exact Hb. reflexivity.
  - rewrite draw_field_ok by lia. cbn [rbind].
    destruct Hin as [Hin|Hin]; [discriminate|].
    rewrite IH by exact Hin. reflexivity.
Qed.

(** X4.  For a renderer whose fields all have a category, and one field at
    least, [draw_random_x] returns a batch of the size of its argument in
    which the row of sample [b] is the concatenation, field by field, of the
    one-hot encodings of the categories drawn for [b]; every row has
    [sum(x_depth)] components and holds exactly one 1 per field.  With a
    field of depth 0 the draw of its categories for a batch that is not
    empty raises [InvalidArgumentError]. *)
Theorem draw_random_x_rows (r : Renderer.t) (d : Renderer.draws) (x1 : mat) :
  (Renderer.x_depth r <> [] ->
   Forall (fun depth => (0 < depth)%nat) (Renderer.x_depth r) ->
   exists x2,
     Renderer.draw_random_x r d x1 = Ok x2 /\
     x2 = map (fun b =>
                 concat (map (fun '(field, depth) =>
                                one_hot depth (Renderer.rand_int d field b mod depth))
                           (combine (seq 0 (length (Renderer.x_depth r)))
                              (Renderer.x_depth r))))
            (seq 0 (length x1)) /\
     length x2 = length x1 /\
     Forall (fun row => length row = list_sum (Renderer.x_depth r)) x2 /\
     Forall (fun row => Rsum row = INR (length (Renderer.x_depth r))) x2) /\
  (In 0%nat (Renderer.x_depth r) -> x1 <> [] ->
   Renderer.draw_random_x r d x1 = Raise InvalidArgumentError).
Proof.
  split.
  - intros Hne Hpos. eexists. split; [|split; [reflexivity|]].
    + unfold Renderer.draw_random_x.
      rewrite (draw_fields_ok d (length x1) _ Hpos 0). cbn [rbind].
      unfold concat_axis1.
      destruct (Renderer.x_depth r) as [|depth l] eqn:E; [contradiction|].
      cbn [length seq combine map]. apply f_equal.
      apply map_ext_in. intros b Hb. apply in_seq in Hb.
      cbn [concat map].
      rewrite (nth_map_in _ _ b 0%nat) by (rewrite length_seq; lia).
      rewrite seq_nth by lia. apply f_equal. apply f_equal.
      rewrite map_map. apply map_ext. intros [field dp].
      rewrite (nth_map_in _ _ b 0%nat) by (rewrite length_seq; lia).
      rewrite seq_nth by lia. reflexivity.
    + split; [rewrite length_map, length_seq; reflexivity|]. split.
      * apply Forall_forall. intros row Hrow.
        apply in_map_iff in Hrow. destruct Hrow as (b & <- & _).
        apply (blocks_length (fun field depth => (Renderer.rand_int d field b mod depth)%nat)).
      * apply Forall_forall. intros row Hrow.
        apply in_map_iff in Hrow. destruct Hrow as (b & <- & _).
        apply (blocks_sum (fun field depth => (Renderer.rand_int d field b mod depth)%nat)).
        intros i Hi. apply Nat.mod_upper_bound.
        rewrite Forall_forall in Hpos.
        specialize (Hpos (nth i (Renderer.x_depth r) 0%nat) ltac:(apply nth_In; exact Hi)).
        lia.
  - intros Hin Hx1. unfold Renderer.draw_random_x.
    rewrite draw_fields_fail; [reflexivity| |exact Hin].
    destruct x1; [contradiction|simpl; lia].
Qed.

Lemma draw_random_x_rows_witness :
  (exists r,
     Renderer.init same_mat same_mat same_mat (small_params [4; 8]%Z (9 / 10) None)
     = Ok r /\
     Renderer.draw_random_x r draws_raw x_hot = Ok [[0; 1]]) /\
  (exists r,
     Renderer.init same_mat same_mat same_mat empty_field_params = Ok r /\
     Renderer.draw_random_x r draws_raw x_hot = Raise InvalidArgumentError).
Proof.
  split; (eexists; split; [reflexivity|]).
  - match goal with
    | |- Renderer.draw_random_x ?r _ _ = _ =>
        destruct (proj1 (draw_random_x_rows r draws_raw x_hot)
                    ltac:(discriminate) ltac:(repeat constructor))
          as (x2 & Hdraw & Hrows & _)
    end.
    rewrite Hdraw, Hrows. reflexivity.
  - match goal with
    | |- Renderer.draw_random_x ?r _ _ = _ =>
        exact (proj2 (draw_random_x_rows r draws_raw x_hot)
                 ltac:(simpl; auto) ltac:(discriminate))
    end.
Defined.

(** ** Renderer: construction, style mixing and the state *)

Lemma map_const_seq {A : Type} (f : nat -> A) (a : A) (n : nat) :
  forall s, (forall i, (s <= i < s + n)%nat -> f i = a) -> map f (seq s n) = repeat a n.
Proof.
  induction n as [|n IH]; intros s H; simpl; [reflexivity|].
  rewrite (H s) by lia. f_equal. apply IH. intros i Hi. apply H. lia.
Qed.

Lemma zip_strict_length {A B C : Type} (f : A -> B -> result C) (xs : list A) :
  forall (ys : list B) (l : list C),
    zip_strict f xs ys = Ok l -> length l = length xs /\ length l = length ys.
Proof.
  induction xs as [|x xs IH]; intros [|y ys] l H; simpl in H; try discriminate.
  - inversion H. auto.
  - destruct (f x y) as [c|e]; simpl in H; [|discriminate].
    destruct (zip_strict f xs ys) as [cs|e] eqn:E; simpl in H; [|discriminate].
    inversion H; subst. destruct (IH ys cs E). simpl. auto.
Qed.

Section ForwardExtras.
Variable LabelEmbedding_call : mat -> mat.
Variable Dense_call : nat -> mat -> mat.
Variable Bias_call : nat -> mat -> mat.
Variable LeakyReLU_call : nat -> mat -> mat.

Variable tensor4 : Type.
Variable ModulatedConv2D_call : string -> tensor4 -> mat -> tensor4.
Variable Noise_call : string -> tensor4 -> tensor4.
Variable Bias4_call : string -> tensor4 -> tensor4.
Variable LeakyReLU4_call : string -> tensor4 -> tensor4.
Variable Upscale2D_call : tensor4 -> tensor4.
Variable add : tensor4 -> tensor4 -> tensor4.
Variable tile_const : string -> nat -> tensor4.

Let init := Renderer.init Dense_call Bias_call LeakyReLU_call.
Let g_mapping_call (r : Renderer.t) :=
  Mapping.call LabelEmbedding_call (Renderer.g_mapping r).
Let style_mixing_regularization :=
  Renderer.style_mixing_regularization LabelEmbedding_call.
Let call_styles := Renderer.call_styles LabelEmbedding_call.
Let call :=
  Renderer.call LabelEmbedding_call tensor4 ModulatedConv2D_call Noise_call
    Bias4_call LeakyReLU4_call Upscale2D_call add tile_const.

(** X5.  After construction there is one truncation coefficient per style
    position.  A cutoff of zero or less leaves every coefficient at 1, and a
    cutoff of [n_broadcast] or more gives the coefficients of the absent
    cutoff: [truncation_psi] at every position. *)
Theorem truncation_coefs_edges (p : Renderer.g_params) (r : Renderer.t) :
  init p = Ok r ->
  length (Renderer.truncation_coefs r) = Renderer.n_broadcast r /\
  (forall cutoff, Renderer.g_truncation_cutoff p = Some cutoff -> (cutoff <= 0)%Z ->
     Renderer.truncation_coefs r = repeat 1 (Renderer.n_broadcast r)) /\
  (forall cutoff, Renderer.g_truncation_cutoff p = Some cutoff ->
     (Z.of_nat (Renderer.n_broadcast r) <= cutoff)%Z ->
     Renderer.truncation_coefs r
     = repeat (Renderer.g_truncation_psi p) (Renderer.n_broadcast r)) /\
  (Renderer.g_truncation_cutoff p = None ->
   Renderer.truncation_coefs r
   = repeat (Renderer.g_truncation_psi p) (Renderer.n_broadcast r)).
Proof.
  intros Hinit. pose proof (init_coefs _ _ _ p r Hinit) as Hc.
  assert (Hp : Renderer.truncation_cutoff r = Renderer.g_truncation_cutoff p /\
               Renderer.truncation_psi r = Renderer.g_truncation_psi p).
  { unfold init, Renderer.init in Hinit.
    destruct (Synthesis.init _ _ _); simpl in Hinit; [|discriminate].
    inversion Hinit; subst. split; reflexivity. }
  destruct Hp as [Hcut Hpsi]. rewrite Hcut, Hpsi in Hc. rewrite Hc.
  split; [rewrite length_map, length_seq; reflexivity|].
  split; [|split].
  - intros cutoff -> Hle. apply map_const_seq. intros i Hi. unfold coef_at.
    destruct (Z.ltb_spec (Z.of_nat i) cutoff); [lia|reflexivity].
  - intros cutoff -> Hle. apply map_const_seq. intros i Hi. unfold coef_at.
    destruct (Z.ltb_spec (Z.of_nat i) cutoff); [reflexivity|lia].
  - intros ->. apply map_const_seq. intros i Hi. reflexivity.
Qed.

(** X6.  For draws in their ranges style mixing returns a tensor of the
    shape of its operands.  When the uniform draw is not below
    [style_mixing_prob] it is the first tensor, unchanged.  When it is, each
    position below the drawn cutoff is that of the first tensor and each
    other position that of the mapping of the drawn input: position 0 always
    stays, and the last position is always replaced. *)
Theorem style_mixing_by_cutoff (p : Renderer.g_params) (r : Renderer.t)
  (d : Renderer.draws) (x1 x2 : mat) (w1 : ten3) (b dd : nat) :
  init p = Ok r ->
  Renderer.draws_ok r d ->
  Renderer.draw_random_x r d x1 = Ok x2 ->
  has_shape3 b (Renderer.n_broadcast r) dd w1 ->
  has_shape3 b (Renderer.n_broadcast r) dd (g_mapping_call r x2) ->
  exists out,
    style_mixing_regularization r d x1 w1 = Ok out /\
    has_shape3 b (Renderer.n_broadcast r) dd out /\
    (~ Renderer.rand_u d < Renderer.style_mixing_prob r -> out = w1) /\
    (Renderer.rand_u d < Renderer.style_mixing_prob r ->
     forall bi, (bi < b)%nat ->
       pos3 out bi 0 = pos3 w1 bi 0 /\
       pos3 out bi (Renderer.n_broadcast r - 1)
       = pos3 (g_mapping_call r x2) bi (Renderer.n_broadcast r - 1) /\
       forall i, (i < Renderer.n_broadcast r)%nat ->
         pos3 out bi i
         = if (i <? Renderer.rand_cutoff d)%nat
           then pos3 w1 bi i else pos3 (g_mapping_call r x2) bi i).
Proof.
  intros Hinit [Hu Hcut] Hx2 H1 H2.
  unfold init, g_mapping_call, style_mixing_regularization in *.
  destruct (style_mixing_with_cutoff LabelEmbedding_call Dense_call Bias_call
              LeakyReLU_call p r d x1 x2 w1 b dd Hinit Hx2 H1 H2)
    as (Hout & Hshape & Hpos).
  rewrite (random_uniform_int_in_range 1 _ _ Hcut) in Hout, Hshape, Hpos.
  eexists. split; [exact Hout|]. split; [exact Hshape|]. split.
  - intros Hno. destruct (Rlt_dec _ _) as [Hlt|_]; [contradiction|].
    apply (mix_tensor_true b (Renderer.n_broadcast r) dd); try assumption.
    + rewrite length_map, length_seq. reflexivity.
    + apply mask_all_true. lia.
  - intros Hyes bi Hbi.
    assert (Hi : forall i, (i < Renderer.n_broadcast r)%nat ->
      pos3 (map (fun '(r1, r2) =>
                   mix_row
                     (map (fun j => (j <? (if Rlt_dec (Renderer.rand_u d)
                                                (Renderer.style_mixing_prob r)
                                           then Renderer.rand_cutoff d
                                           else Renderer.n_broadcast r))%nat)
                        (seq 0 (Renderer.n_broadcast r))) r1 r2)
              (combine w1 (g_mapping_call r x2))) bi i
      = if (i <? Renderer.rand_cutoff d)%nat
        then pos3 w1 bi i else pos3 (g_mapping_call r x2) bi i).
    { intros i Hi. unfold g_mapping_call. rewrite (Hpos bi i Hbi Hi).
      destruct (Rlt_dec _ _) as [_|Hno]; [reflexivity|contradiction]. }
    split; [|split; [|exact Hi]].
    + rewrite Hi by lia.
      destruct (Nat.ltb_spec 0 (Renderer.rand_cutoff d)); [reflexivity|lia].
    + rewrite Hi by lia.
      destruct (Nat.ltb_spec (Renderer.n_broadcast r - 1) (Renderer.rand_cutoff d));
        [lia|reflexivity].
Qed.

Lemma lerp_vec_mismatch (a b : vec) (t : R) :
  length a <> length b -> length a <> 1%nat ->
  lerp_vec a b t
  = if (length b =? 1)%nat
    then Ok (map (fun x => lerp x (hd 0 b) t) a)
    else Raise InvalidArgumentError.
Proof.
  intros Hab Ha. unfold lerp_vec.
  destruct (Nat.eqb_spec (length a) (length b)) as [|_]; [contradiction|].
  destruct a as [|x [|x' a]], b as [|y [|y' b]]; simpl in *;
    try reflexivity; contradiction.
Qed.

(** X7.  [w_avg] keeps the shape [w_dim] that [build] gives it: whatever
    the draws, the flag and the outcome of a forward call on a batch that
    is not empty, and whatever the width of the style codes, a [w_avg] of
    [w_dim] components is followed by one of [w_dim] components.  With a
    true flag and style codes of a width that is neither [w_dim] nor 1, the
    call raises and [w_avg] is what it was: the widths are incompatible
    ([InvalidArgumentError]), or, for [w_dim = 1], the average is stretched
    to the width of the codes and its assignment refused
    ([ValueError]). *)
Theorem call_keeps_w_avg_shape (r : Renderer.t) (d : Renderer.draws) (x : mat)
  (training : pyflag) (st : Renderer.state) (b n dd : nat) :
  has_shape3 b n dd (g_mapping_call r x) ->
  (0 < b)%nat -> (0 < n)%nat ->
  length (Renderer.w_avg st) = Renderer.w_dim r ->
  length (Renderer.w_avg (fst (call r d x training st))) = Renderer.w_dim r /\
  length (Renderer.w_avg (Renderer.build r)) = Renderer.w_dim r /\
  (truthy training = true -> dd <> Renderer.w_dim r -> dd <> 1%nat ->
   call r d x training st
   = (st, Raise (if (Renderer.w_dim r =? 1)%nat
                 then ValueError else InvalidArgumentError))).
Proof.
  intros Hw Hb Hn Hst. unfold g_mapping_call in Hw.
  split; [|split; [apply repeat_length|]].
  - unfold call, Renderer.call, Renderer.call_styles, Renderer.bind.
    destruct (truthy training); cbn [negb].
    + unfold Renderer.update_moving_average_of_w.
      destruct (column 0 _) as [w0|e]; [|exact Hst].
      destruct (lerp_vec _ _ _) as [v|e]; [|exact Hst].
      unfold Renderer.w_avg_assign.
      destruct (Nat.eqb_spec (length v) (length (Renderer.w_avg st))) as [E|_].
      * unfold Renderer.lift, Renderer.ret.
        destruct (Renderer.style_mixing_regularization _ _ _ _ _);
          cbn [fst Renderer.w_avg]; congruence.
      * exact Hst.
    + unfold Renderer.ret, Renderer.truncation_trick, Renderer.lift.
      destruct (lerp_broadcast _ _ _); exact Hst.
  - intros Hf Hdd Hone.
    unfold call, Renderer.call, Renderer.call_styles, Renderer.bind.
    rewrite Hf. unfold Renderer.update_moving_average_of_w.
    rewrite (column_pos b _ _ _ 0 Hw Hn). unfold reduce_mean_axis0.
    rewrite (width_pos b _ _ _ _ 0 Hw Hn) by lia.
    rewrite lerp_vec_mismatch
      by (rewrite length_map, length_seq; unfold vec in *; lia).
    rewrite Hst. destruct (Renderer.w_dim r =? 1)%nat eqn:E; [|reflexivity].
    unfold Renderer.w_avg_assign. rewrite !length_map, length_seq, Hst.
    apply Nat.eqb_eq in E. rewrite E.
    destruct (Nat.eqb_spec dd 1); [contradiction|reflexivity].
Qed.

(** X8.  A forward call with a true flag whose uniform draw is not below
    [style_mixing_prob] hands the output of the mapping network to the
    synthesis network as it is: neither mixed nor truncated. *)
Theorem training_without_mixing (p : Renderer.g_params) (r : Renderer.t)
  (d : Renderer.draws) (x x2 : mat) (training : pyflag) (st : Renderer.state)
  (b : nat) :
  init p = Ok r ->
  truthy training = true ->
  ~ Renderer.rand_u d < Renderer.style_mixing_prob r ->
  Renderer.draw_random_x r d x = Ok x2 ->
  has_shape3 b (Renderer.n_broadcast r) (Renderer.w_dim r) (g_mapping_call r x) ->
  has_shape3 b (Renderer.n_broadcast r) (Renderer.w_dim r) (g_mapping_call r x2) ->
  length (Renderer.w_avg st) = Renderer.w_dim r ->
  snd (call_styles r d x training st) = Ok (g_mapping_call r x).
Proof.
  intros Hinit Hf Hno Hx2 Hw Hw2 Hst.
  unfold init, g_mapping_call, call_styles in *.
  pose proof (init_n_broadcast Dense_call Bias_call LeakyReLU_call p r Hinit) as Hn.
  destruct (style_mixing_with_cutoff LabelEmbedding_call Dense_call Bias_call
              LeakyReLU_call p r d x x2 _ b _ Hinit Hx2 Hw Hw2)
    as (Hout & _ & _).
  unfold Renderer.call_styles, Renderer.bind.
  rewrite Hf. cbn [negb].
  rewrite (update_ok r st _ b Hw) by (auto; lia).
  unfold Renderer.lift. rewrite Hout. cbn [snd Renderer.ret].
  apply f_equal.
  destruct (Rlt_dec _ _) as [Hlt|_]; [contradiction|].
  apply (mix_tensor_true b (Renderer.n_broadcast r) (Renderer.w_dim r));
    try assumption.
  - rewrite length_map, length_seq. reflexivity.
  - apply mask_all_true. lia.
Qed.
End ForwardExtras.

(** ** Synthesis: construction and the positions needed *)

Lemma stack_fields (l : list (Z * Z)) :
  forall prev bs us ts,
    Synthesis.stack prev l = (bs, us, ts) ->
    forall k,
      (forall blk, nth_error bs k = Some blk ->
         Synthesis.block_in_channel blk = nth k (prev :: map snd l) 0%Z /\
         Synthesis.block_fmaps blk = nth k (map snd l) 0%Z /\
         Synthesis.block_res blk = nth k (map fst l) 0%Z) /\
      (forall t, nth_error ts k = Some t ->
         Synthesis.torgb_in_channel t = nth k (map snd l) 0%Z).
Proof.
  induction l as [|[res n_f] l IH]; intros prev bs us ts H k; simpl in H.
  - inversion H; subst. split; intros ? Hk; destruct k; discriminate.
  - destruct (Synthesis.stack n_f l) as [[bs' us'] ts'] eqn:E.
    inversion H; subst; clear H.
    destruct k as [|k].
    + split; intros ? Hk; inversion Hk; subst; simpl; auto.
    + destruct (IH _ _ _ _ E k) as [Hb Ht]. split.
      * intros blk Hk. simpl in Hk. destruct (Hb blk Hk) as (H1 & H2 & H3).
        simpl. auto.
      * intros t Hk. simpl in Hk. simpl. apply Ht. exact Hk.
Qed.

Lemma nth_combine_snd (a b : list Z) :
  forall k, (k < length (combine a b))%nat ->
            nth k (map snd (combine a b)) 0%Z = nth k b 0%Z /\
            nth k (map fst (combine a b)) 0%Z = nth k a 0%Z.
Proof.
  revert b. induction a as [|x a IH]; intros [|y b] k Hk; simpl in *; try lia.
  destruct k as [|k]; [auto|]. apply IH. lia.
Qed.

(** X9.  A synthesis network that has been built has one block, one upscale
    and one ToRGB per resolution after the first for which there is a
    feature map count too, so a longer [resolutions] or [featuremaps] list
    is cut to the shorter one without an error.  The const block and the
    first ToRGB take the first feature map count, the first resolution is
    4, and the [k]-th block goes from [featuremaps[k]] to
    [featuremaps[k+1]] channels at [resolutions[k+1]], its ToRGB reading
    [featuremaps[k+1]] channels: each stage receives the channels the stage
    before it produces. *)
Theorem synthesis_init_channels (w_dim : nat) (resolutions featuremaps : list Z)
  (s : Synthesis.t) :
  Synthesis.init w_dim resolutions featuremaps = Ok s ->
  length (Synthesis.blocks s)
  = (Nat.min (length resolutions) (length featuremaps) - 1)%nat /\
  length (Synthesis.torgbs s) = length (Synthesis.blocks s) /\
  length (Synthesis.upscales s) = length (Synthesis.blocks s) /\
  nth 0 resolutions 0%Z = 4%Z /\
  Synthesis.const_fmaps (Synthesis.initial_block s) = nth 0 featuremaps 0%Z /\
  Synthesis.torgb_in_channel (Synthesis.initial_torgb s) = nth 0 featuremaps 0%Z /\
  forall k blk t,
    nth_error (Synthesis.blocks s) k = Some blk ->
    nth_error (Synthesis.torgbs s) k = Some t ->
    Synthesis.block_in_channel blk = nth k featuremaps 0%Z /\
    Synthesis.block_fmaps blk = nth (S k) featuremaps 0%Z /\
    Synthesis.block_res blk = nth (S k) resolutions 0%Z /\
    Synthesis.torgb_in_channel t = nth (S k) featuremaps 0%Z.
Proof.
  unfold Synthesis.init. intros H.
  destruct resolutions as [|res rest]; [discriminate|].
  destruct featuremaps as [|n_f fs]; [discriminate|].
  unfold Synthesis.SynthesisConstBlock_init in H.
  destruct (Z.eqb_spec res 4) as [->|]; [|discriminate].
  cbn [rbind tl] in H.
  destruct (Synthesis.stack n_f (combine rest fs)) as [[bs us] ts] eqn:E.
  inversion H; subst; clear H. cbn.
  pose proof (stack_length _ _ _ _ _ E) as (Hbs & Hus & Hts).
  rewrite length_combine in Hbs, Hus, Hts.
  split; [lia|]. split; [lia|]. split; [lia|].
  split; [reflexivity|]. split; [reflexivity|]. split; [reflexivity|].
  intros k blk t Hblk Ht.
  assert (Hk : (k < length (combine rest fs))%nat).
  { rewrite length_combine, <- Hbs. apply nth_error_Some. congruence. }
  destruct (stack_fields _ _ _ _ _ E k) as [Hb Htk].
  destruct (Hb blk Hblk) as (H1 & H2 & H3). specialize (Htk t Ht).
  destruct (nth_combine_snd rest fs k Hk) as [Hsnd Hfst].
  rewrite H1, H2, H3, Htk. cbn [nth].
  split; [|split; [exact Hsnd|split; [exact Hfst|exact Hsnd]]].
  destruct k as [|k]; [reflexivity|].
  cbn [nth]. apply nth_combine_snd. lia.
Qed.

Lemma synthesis_init_lengths (w_dim : nat) (resolutions featuremaps : list Z)
  (s : Synthesis.t) :
  Synthesis.init w_dim resolutions featuremaps = Ok s ->
  length (Synthesis.torgbs s) = length (Synthesis.blocks s) /\
  length (Synthesis.upscales s) = length (Synthesis.blocks s).
Proof.
  unfold Synthesis.init. intros H.
  destruct resolutions as [|res rest]; [discriminate|].
  destruct featuremaps as [|n_f fs]; [discriminate|].
  destruct (Synthesis.SynthesisConstBlock_init _ _ _); [|discriminate].
  cbn [rbind tl] in H.
  destruct (Synthesis.stack n_f (combine rest fs)) as [[bs us] ts] eqn:E.
  inversion H; subst; clear H. cbn.
  pose proof (stack_length _ _ _ _ _ E) as (Hbs & Hus & Hts). lia.
Qed.

Lemma column_fail (n k : nat) (w : ten3) :
  w <> [] -> Forall (fun row => length row = n) w -> (n <= k)%nat ->
  column k w = Raise InvalidArgumentError.
Proof.
  intros Hne Hw Hk. destruct w as [|row w]; [contradiction|].
  inversion Hw as [|? ? Hrow _]; subst. simpl.
  destruct (nth_error row k) as [v|] eqn:E; [|reflexivity].
  assert (k < length row)%nat by (apply nth_error_Some; congruence). lia.
Qed.

Lemma lbind_slice_fail {B : Type} (w : ten3) (k : nat) (e : exn) (f : mat -> logged B) :
  column k w = Raise e -> lbind (slice w k) f = ([k], Raise e).
Proof. intros E. unfold lbind, slice. rewrite E. reflexivity. Qed.

Section SynthesisPositions.
Variable tensor4 : Type.
Variable ModulatedConv2D_call : string -> tensor4 -> mat -> tensor4.
Variable Noise_call : string -> tensor4 -> tensor4.
Variable Bias4_call : string -> tensor4 -> tensor4.
Variable LeakyReLU4_call : string -> tensor4 -> tensor4.
Variable Upscale2D_call : tensor4 -> tensor4.
Variable add : tensor4 -> tensor4 -> tensor4.
Variable tile_const : string -> nat -> tensor4.

Lemma ladder_fail (n : nat) (w : ten3) :
  w <> [] -> Forall (fun row => length row = n) w ->
  forall layers s x y,
    layers <> [] -> (n <= 2 * (s + length layers) + 1)%nat ->
    snd (Synthesis.ladder tensor4 ModulatedConv2D_call Noise_call Bias4_call
           LeakyReLU4_call Upscale2D_call add layers w (2 * s + 1) x y)
    = Raise InvalidArgumentError.
Proof.
  intros Hne Hw. induction layers as [|[[block u] torgb] layers IH];
    intros s x y Hl Hn; [contradiction|].
  cbn [Synthesis.ladder].
  destruct (Nat.le_gt_cases n (2 * s + 1)) as [H0|H0].
  { rewrite (lbind_slice_fail _ _ _ _ (column_fail n _ w Hne Hw H0)). reflexivity. }
  destruct (column_ok n (2 * s + 1) w Hw H0) as (w0 & E0 & _).
  rewrite (lbind_slice _ _ _ _ E0). cbn [snd].
  destruct (Nat.le_gt_cases n (2 * s + 1 + 1)) as [H1|H1].
  { rewrite (lbind_slice_fail _ _ _ _ (column_fail n _ w Hne Hw H1)). reflexivity. }
  destruct (column_ok n (2 * s + 1 + 1) w Hw H1) as (w1 & E1 & _).
  rewrite (lbind_slice _ _ _ _ E1). cbn [snd].
  destruct (Nat.le_gt_cases n (2 * s + 1 + 2)) as [H2|H2].
  { rewrite (lbind_slice_fail _ _ _ _ (column_fail n _ w Hne Hw H2)). reflexivity. }
  destruct (column_ok n (2 * s + 1 + 2) w Hw H2) as (w2 & E2 & _).
  rewrite (lbind_slice _ _ _ _ E2). cbn [snd].
  replace (2 * s + 1 + 2)%nat with (2 * S s + 1)%nat by lia.
  apply IH.
  - destruct layers; [simpl in Hn; lia|discriminate].
  - simpl in Hn. lia.
Qed.

(** X10.  On a batch that is not empty, a built synthesis network with [k]
    blocks returns an image exactly when the style tensor has at least
    [2 * (k + 1)] positions; the positions from [2 * (k + 1)] on are never
    read, and with fewer positions the call fails with a slice error. *)
Theorem synthesis_call_needs_positions (w_dim : nat)
  (resolutions featuremaps : list Z) (s : Synthesis.t) (w : ten3) (n : nat) :
  Synthesis.init w_dim resolutions featuremaps = Ok s ->
  w <> [] ->
  Forall (fun row => length row = n) w ->
  let k := length (Synthesis.blocks s) in
  let out :=
    Synthesis.call tensor4 ModulatedConv2D_call Noise_call Bias4_call
      LeakyReLU4_call Upscale2D_call add tile_const s w in
  ((2 * (k + 1) <= n)%nat ->
   exists img,
     out = (([0; 1] ++ ladder_reads 0 k)%nat%list, Ok img) /\
     Forall (fun i => (i < 2 * (k + 1))%nat) (fst out)) /\
  ((n < 2 * (k + 1))%nat -> snd out = Raise InvalidArgumentError).
Proof.
  intros Hinit Hne Hw k out.
  destruct (synthesis_init_lengths _ _ _ _ Hinit) as (Ht & Hu).
  assert (Hl : length (combine (combine (Synthesis.blocks s) (Synthesis.upscales s))
                         (Synthesis.torgbs s)) = k).
  { rewrite !length_combine. unfold k. lia. }
  unfold out, Synthesis.call. split.
  - intros Hn.
    destruct (column_ok n 0 w Hw) as (w0 & E0 & _); [lia|].
    destruct (column_ok n 1 w Hw) as (w1 & E1 & _); [lia|].
    rewrite (lbind_slice _ _ _ _ E0), (lbind_slice _ _ _ _ E1).
    match goal with
    | |- context [Synthesis.ladder _ _ _ _ _ _ _ ?layers w _ ?x' ?y'] =>
        destruct (ladder_log tensor4 ModulatedConv2D_call Noise_call Bias4_call
                    LeakyReLU4_call Upscale2D_call add n w Hw layers 0 x' y')
          as (img & Himg)
    end.
    { rewrite Hl. lia. }
    change (2 * 0 + 1)%nat with 1%nat in Himg. rewrite Himg, Hl. cbn [fst snd app].
    exists img. split; [reflexivity|].
    pose proof (ladder_reads_bound 0 k) as Hb.
    repeat constructor; try lia.
    eapply Forall_impl; [|exact Hb]. simpl. intros; lia.
  - intros Hn.
    destruct (Nat.le_gt_cases n 0) as [H0|H0].
    { rewrite (lbind_slice_fail _ _ _ _ (column_fail n _ w Hne Hw H0)). reflexivity. }
    destruct (column_ok n 0 w Hw H0) as (w0 & E0 & _).
    rewrite (lbind_slice _ _ _ _ E0). cbn [snd].
    destruct (Nat.le_gt_cases n 1) as [H1|H1].
    { rewrite (lbind_slice_fail _ _ _ _ (column_fail n _ w Hne Hw H1)). reflexivity. }
    destruct (column_ok n 1 w Hw H1) as (w1 & E1 & _).
    rewrite (lbind_slice _ _ _ _ E1). cbn [snd].
    match goal with
    | |- context [Synthesis.ladder _ _ _ _ _ _ _ ?layers w _ ?x' ?y'] =>
        apply (ladder_fail n w Hne Hw layers 0%nat x' y')
    end.
    + intros Heq. rewrite Heq in Hl. simpl in Hl. lia.
    + rewrite Hl. lia.
Qed.
End SynthesisPositions.

(** ** The moving average of the weights: what the sync keeps *)

Lemma outer_keeps (cws sws : list Ema.variable) (beta : R) :
  map Ema.name (fst (Ema.outer cws sws beta)) = map Ema.name cws /\
  map Ema.shape (fst (Ema.outer cws sws beta)) = map Ema.shape cws.
Proof.
  induction cws as [|cw cws [IHn IHs]]; simpl; [auto|].
  rewrite inner_first_match.
  destruct (Ema.first_match cw sws) as [sw|].
  - destruct (Ema.shape_eqb _ _); [|auto].
    destruct (Ema.outer cws sws beta) as [rest r]. simpl in *.
    rewrite IHn, IHs. auto.
  - destruct (Ema.outer cws sws beta) as [rest r]. simpl in *.
    rewrite IHn, IHs. auto.
Qed.

Lemma lerp_value_length (sw cw : list R) (beta : R) :
  length sw = length cw -> length (Ema.lerp_value sw cw beta) = length cw.
Proof.
  intros H. unfold Ema.lerp_value. rewrite length_map, length_combine. lia.
Qed.

Lemma outer_wf (cws sws : list Ema.variable) (beta : R) :
  Forall Ema.wf_variable cws -> Forall Ema.wf_variable sws ->
  Forall Ema.wf_variable (fst (Ema.outer cws sws beta)).
Proof.
  intros Hcws Hsws. induction Hcws as [|cw cws Hcw Hcws IH]; simpl.
  - constructor.
  - rewrite inner_first_match.
    destruct (Ema.first_match cw sws) as [sw|] eqn:E.
    + destruct (Ema.shape_eqb _ _) eqn:Eb; [|constructor; assumption].
      apply shape_eqb_eq in Eb.
      pose proof (matched_lengths cw sw sws Hcw Hsws E Eb) as Hl.
      destruct (Ema.outer cws sws beta) as [rest r]. cbn [fst] in *.
      constructor; [|exact IH].
      unfold Ema.wf_variable, Ema.assign. cbn [Ema.value Ema.shape].
      rewrite (lerp_value_length _ _ beta Hl).
      exact Hcw.
    + destruct (Ema.outer cws sws beta) as [rest r]. simpl in *.
      constructor; assumption.
Qed.

(** X11.  Whatever its outcome, the sync leaves the target with the same
    variables in the same order: their names and shapes are those before
    the call, for the trainable and the non-trainable weights; and when the
    variables of both networks hold as many elements as their shapes say,
    so do those of the target afterwards. *)
Theorem ema_sync_keeps_names_shapes (self src : Ema.weights)
  (beta beta_nontrainable : R) :
  let out := fst (Ema.set_as_moving_average_of self src beta beta_nontrainable) in
  map Ema.name (Ema.trainable_weights out)
  = map Ema.name (Ema.trainable_weights self) /\
  map Ema.shape (Ema.trainable_weights out)
  = map Ema.shape (Ema.trainable_weights self) /\
  map Ema.name (Ema.non_trainable_weights out)
  = map Ema.name (Ema.non_trainable_weights self) /\
  map Ema.shape (Ema.non_trainable_weights out)
  = map Ema.shape (Ema.non_trainable_weights self) /\
  (Forall Ema.wf_variable (Ema.trainable_weights self) ->
   Forall Ema.wf_variable (Ema.trainable_weights src) ->
   Forall Ema.wf_variable (Ema.non_trainable_weights self) ->
   Forall Ema.wf_variable (Ema.non_trainable_weights src) ->
   Forall Ema.wf_variable (Ema.trainable_weights out) /\
   Forall Ema.wf_variable (Ema.non_trainable_weights out)).
Proof.
  intros out. unfold out. rewrite sync_trainable, sync_non_trainable.
  destruct (outer_keeps (Ema.trainable_weights self) (Ema.trainable_weights src) beta)
    as [Hn Hs].
  destruct (outer_keeps (Ema.non_trainable_weights self)
              (Ema.non_trainable_weights src) beta_nontrainable) as [Hnn Hns].
  split; [exact Hn|]. split; [exact Hs|].
  destruct (snd (Ema.outer (Ema.trainable_weights self) _ beta)).
  - split; [exact Hnn|]. split; [exact Hns|].
    intros H1 H2 H3 H4. split; apply outer_wf; assumption.
  - split; [reflexivity|]. split; [reflexivity|].
    intros H1 H2 H3 H4. split; [apply outer_wf; assumption|exact H3].
Qed.

Lemma outer_app_fail (pre post sws : list Ema.variable) (cw sw : Ema.variable)
  (beta : R) :
  shapes_agree pre sws ->
  Ema.first_match cw sws = Some sw -> Ema.shape sw <> Ema.shape cw ->
  Ema.outer (pre ++ cw :: post) sws beta
  = (map (synced beta sws) pre ++ cw :: post, Raise AssertionError).
Proof.
  intros Ha Hm Hs. induction pre as [|c pre IH]; simpl.
  - rewrite inner_first_match, Hm.
    destruct (Ema.shape_eqb _ _) eqn:Eb; [|reflexivity].
    apply shape_eqb_eq in Eb. contradiction.
  - rewrite inner_first_match. unfold synced at 1, synced_value.
    destruct (Ema.first_match c sws) as [s|] eqn:E.
    + assert (Hcs : Ema.shape s = Ema.shape c) by (apply Ha; simpl; auto).
      apply shape_eqb_eq in Hcs. rewrite Hcs.
      rewrite IH; [reflexivity|]. intros c' s' Hc'. apply Ha. simpl; auto.
    + rewrite IH; [destruct c; reflexivity|].
      intros c' s' Hc'. apply Ha. simpl; auto.
Qed.

(** X12.  The sync is not atomic.  When the first trainable variable of the
    target whose match has another shape is reached, [AssertionError] is
    raised with the trainable variables before it already assigned (each
    holds [lerp(source, target, beta)] of its first match, or what it held
    when it has none), and that variable, the trainable variables after it
    and all non-trainable weights as they were. *)
Theorem ema_sync_stops_at_mismatch (self src : Ema.weights) (pre post : list Ema.variable)
  (cw sw : Ema.variable) (beta beta_nontrainable : R) :
  Ema.trainable_weights self = pre ++ cw :: post ->
  shapes_agree pre (Ema.trainable_weights src) ->
  Ema.first_match cw (Ema.trainable_weights src) = Some sw ->
  Ema.shape sw <> Ema.shape cw ->
  Ema.set_as_moving_average_of self src beta beta_nontrainable
  = ({| Ema.trainable_weights :=
          map (fun c =>
                 {| Ema.name := Ema.name c;
                    Ema.shape := Ema.shape c;
                    Ema.value :=
                      match Ema.first_match c (Ema.trainable_weights src) with
                      | Some s =>
                          map (fun '(a, b) => lerp a b beta)
                            (combine (Ema.value s) (Ema.value c))
                      | None => Ema.value c
                      end |})
            pre ++ cw :: post;
        Ema.non_trainable_weights := Ema.non_trainable_weights self |},
     Raise AssertionError).
Proof.
  intros Htw Ha Hm Hs. unfold Ema.set_as_moving_average_of.
  rewrite Htw, (outer_app_fail pre post _ cw sw beta Ha Hm Hs). reflexivity.
Qed.

(** X13.  Splitting a name at [/] and joining the parts with [/] gives the
    name back.  A name without [/] is its own top-level scope and is
    stripped to the empty name, so all such names match one another: a
    target variable of such a name takes the first source variable of such
    a name. *)
Theorem split_first_name_edges :
  (forall s, String.concat "/" (Ema.split s) = s) /\
  (forall s, has_slash s = false -> Ema.split_first_name s = ""%string) /\
  (forall cw sw sws,
     has_slash (Ema.name cw) = false -> has_slash (Ema.name sw) = false ->
     Ema.first_match cw (sw :: sws) = Some sw).
Proof.
  assert (H : forall s, has_slash s = false -> Ema.split_first_name s = ""%string).
  { intros s Hs. unfold Ema.split_first_name. rewrite (split_no_slash s Hs).
    reflexivity. }
  split; [exact concat_split|]. split; [exact H|].
  intros cw sw sws Hc Hw. unfold Ema.first_match. simpl.
  rewrite (H _ Hc), (H _ Hw). reflexivity.
Qed.

(** ** Synthesis and the forward pass: what a call depends on *)

Lemma lbind_ext {A B : Type} (m : logged A) (f g : A -> logged B) :
  (forall a, f a = g a) -> lbind m f = lbind m g.
Proof.
  intros H. unfold lbind. destruct m as [l [a|e]]; [rewrite H|]; reflexivity.
Qed.

Section SynthesisDependence.
Variable tensor4 : Type.
Variable ModulatedConv2D_call : string -> tensor4 -> mat -> tensor4.
Variable Noise_call : string -> tensor4 -> tensor4.
Variable Bias4_call : string -> tensor4 -> tensor4.
Variable LeakyReLU4_call : string -> tensor4 -> tensor4.
Variable Upscale2D_call : tensor4 -> tensor4.
Variable add : tensor4 -> tensor4 -> tensor4.
Variable tile_const : string -> nat -> tensor4.

Lemma ladder_ext (w w' : ten3) :
  forall layers idx x y,
    (forall i, (idx <= i <= idx + 2 * length layers)%nat -> column i w = column i w') ->
    Synthesis.ladder tensor4 ModulatedConv2D_call Noise_call Bias4_call
      LeakyReLU4_call Upscale2D_call add layers w idx x y
    = Synthesis.ladder tensor4 ModulatedConv2D_call Noise_call Bias4_call
        LeakyReLU4_call Upscale2D_call add layers w' idx x y.
Proof.
  induction layers as [|[[block u] torgb] layers IH]; intros idx x y H.
  - reflexivity.
  - cbn [Synthesis.ladder length] in *. unfold slice.
    rewrite (H idx), (H (idx + 1)%nat), (H (idx + 2)%nat) by lia.
    apply lbind_ext. intros w0. apply lbind_ext. intros w1.
    apply lbind_ext. intros w2. apply IH. intros i Hi. apply H. lia.
Qed.

(** X14.  The result of a forward pass of a built synthesis network with
    [k] blocks, and the positions it reads, depend on the style tensor
    through its positions below [2 * (k + 1)] only: two tensors that agree
    there give the same outcome. *)
Theorem synthesis_call_depends_on_prefix (w_dim : nat)
  (resolutions featuremaps : list Z) (s : Synthesis.t) (w w' : ten3) :
  Synthesis.init w_dim resolutions featuremaps = Ok s ->
  (forall i, (i < 2 * (length (Synthesis.blocks s) + 1))%nat ->
             column i w = column i w') ->
  Synthesis.call tensor4 ModulatedConv2D_call Noise_call Bias4_call
    LeakyReLU4_call Upscale2D_call add tile_const s w
  = Synthesis.call tensor4 ModulatedConv2D_call Noise_call Bias4_call
      LeakyReLU4_call Upscale2D_call add tile_const s w'.
Proof.
  intros Hinit H.
  destruct (synthesis_init_lengths _ _ _ _ Hinit) as (Ht & Hu).
  unfold Synthesis.call, slice.
  rewrite (H 0%nat), (H 1%nat) by lia.
  apply lbind_ext. intros w0. apply lbind_ext. intros w1.
  apply ladder_ext. intros i Hi. apply H.
  rewrite !length_combine in Hi. lia.
Qed.

Lemma synthesis_call_returns (w_dim : nat) (resolutions featuremaps : list Z)
  (s : Synthesis.t) (w : ten3) (n : nat) :
  Synthesis.init w_dim resolutions featuremaps = Ok s ->
  Forall (fun row => length row = n) w ->
  (2 * (length (Synthesis.blocks s) + 1) <= n)%nat ->
  exists img,
    snd (Synthesis.call tensor4 ModulatedConv2D_call Noise_call Bias4_call
           LeakyReLU4_call Upscale2D_call add tile_const s w) = Ok img.
Proof.
  intros Hinit Hw Hn.
  destruct (synthesis_init_lengths _ _ _ _ Hinit) as (Ht & Hu).
  unfold Synthesis.call.
  destruct (column_ok n 0 w Hw) as (w0 & E0 & _); [lia|].
  destruct (column_ok n 1 w Hw) as (w1 & E1 & _); [lia|].
  rewrite (lbind_slice _ _ _ _ E0), (lbind_slice _ _ _ _ E1).
  match goal with
  | |- context [Synthesis.ladder _ _ _ _ _ _ _ ?layers w _ ?x' ?y'] =>
      destruct (ladder_log tensor4 ModulatedConv2D_call Noise_call Bias4_call
                  LeakyReLU4_call Upscale2D_call add n w Hw layers 0 x' y')
        as (img & Himg)
  end.
  { rewrite !length_combine. lia. }
  change (2 * 0 + 1)%nat with 1%nat in Himg. rewrite Himg. cbn [fst snd].
  exists img. reflexivity.
Qed.
End SynthesisDependence.

Lemma has_shape3_rows (b n d : nat) (t : ten3) :
  has_shape3 b n d t -> Forall (fun row => length row = n) t.
Proof.
  intros [_ H]. eapply Forall_impl; [|exact H]. intros row [Hn _]. exact Hn.
Qed.

Section ForwardReturns.
Variable LabelEmbedding_call : mat -> mat.
Variable Dense_call : nat -> mat -> mat.
Variable Bias_call : nat -> mat -> mat.
Variable LeakyReLU_call : nat -> mat -> mat.

Variable tensor4 : Type.
Variable ModulatedConv2D_call : string -> tensor4 -> mat -> tensor4.
Variable Noise_call : string -> tensor4 -> tensor4.
Variable Bias4_call : string -> tensor4 -> tensor4.
Variable LeakyReLU4_call : string -> tensor4 -> tensor4.
Variable Upscale2D_call : tensor4 -> tensor4.
Variable add : tensor4 -> tensor4 -> tensor4.
Variable tile_const : string -> nat -> tensor4.

Lemma init_blocks_bound (p : Renderer.g_params) (r : Renderer.t) :
  Renderer.init Dense_call Bias_call LeakyReLU_call p = Ok r ->
  Synthesis.init (Renderer.g_w_dim p) (Renderer.g_resolutions p)
    (Renderer.g_featuremaps p) = Ok (Renderer.synthesis r) /\
  (2 * (length (Synthesis.blocks (Renderer.synthesis r)) + 1)
   <= Renderer.n_broadcast r)%nat.
Proof.
  intros Hinit.
  destruct (init_ok_inv _ _ _ p r Hinit) as (s & Hs & Hsyn & Hn & _).
  subst s. split; [exact Hs|].
  unfold Synthesis.init in Hs.
  destruct (Renderer.g_resolutions p) as [|res rest]; [discriminate|].
  destruct (Renderer.g_featuremaps p) as [|n_f fs]; [discriminate|].
  destruct (Synthesis.SynthesisConstBlock_init _ _ _); [|discriminate].
  cbn [rbind tl] in Hs.
  destruct (Synthesis.stack n_f (combine rest fs)) as [[bs us] ts] eqn:E.
  inversion Hs as [Hrec]. cbn [Synthesis.blocks].
  pose proof (stack_length _ _ _ _ _ E) as (Hbs & _).
  rewrite length_combine in Hbs. simpl in Hn. lia.
Qed.

(** X15.  Once construction has succeeded, whether or not the two lists of
    the configuration have one length, a forward call with a false flag on
    an input that the mapping network takes to shape
    [batch, n_broadcast, w_dim] returns an image and leaves the state as it
    was: the broadcast always provides the positions the ladder reads. *)
Theorem inference_call_returns (p : Renderer.g_params) (r : Renderer.t)
  (d : Renderer.draws) (x : mat) (training : pyflag) (st : Renderer.state)
  (b : nat) :
  Renderer.init Dense_call Bias_call LeakyReLU_call p = Ok r ->
  truthy training = false ->
  has_shape3 b (Renderer.n_broadcast r) (Renderer.w_dim r)
    (Mapping.call LabelEmbedding_call (Renderer.g_mapping r) x) ->
  length (Renderer.w_avg st) = Renderer.w_dim r ->
  exists img,
    Renderer.call LabelEmbedding_call tensor4 ModulatedConv2D_call Noise_call
      Bias4_call LeakyReLU4_call Upscale2D_call add tile_const r d x training st
    = (st, Ok img).
Proof.
  intros Hinit Hf Hw Hst.
  destruct (init_blocks_bound p r Hinit) as [Hs Hk].
  pose proof (init_coefs _ _ _ p r Hinit) as Hc.
  assert (Hlen : length (Renderer.truncation_coefs r) = Renderer.n_broadcast r).
  { rewrite Hc, length_map, length_seq. reflexivity. }
  rewrite <- Hlen, <- Hst in Hw.
  unfold Renderer.call, Renderer.call_styles, Renderer.bind.
  rewrite Hf. cbn [negb]. unfold Renderer.ret, Renderer.truncation_trick.
  rewrite (lerp_broadcast_ok _ _ b _ Hw).
  pose proof (lerp_broadcast_shape _ _ b _ Hw) as Hout.
  apply has_shape3_rows in Hout.
  destruct (synthesis_call_returns tensor4 ModulatedConv2D_call Noise_call Bias4_call
              LeakyReLU4_call Upscale2D_call add tile_const _ _ _ _ _ _ Hs Hout)
    as (img & Himg); [lia|].
  exists img. unfold Renderer.lift. rewrite Himg. reflexivity.
Qed.

(** X16.  Once construction has succeeded, a forward call with a true flag
    returns an image, for any draws, when the mapping network takes the
    input and the drawn input to shape [batch, n_broadcast, w_dim]; the
    state it leaves has a [w_avg] of [w_dim] components. *)
Theorem training_call_returns (p : Renderer.g_params) (r : Renderer.t)
  (d : Renderer.draws) (x x2 : mat) (training : pyflag) (st : Renderer.state)
  (b : nat) :
  Renderer.init Dense_call Bias_call LeakyReLU_call p = Ok r ->
  truthy training = true ->
  Renderer.draw_random_x r d x = Ok x2 ->
  has_shape3 b (Renderer.n_broadcast r) (Renderer.w_dim r)
    (Mapping.call LabelEmbedding_call (Renderer.g_mapping r) x) ->
  has_shape3 b (Renderer.n_broadcast r) (Renderer.w_dim r)
    (Mapping.call LabelEmbedding_call (Renderer.g_mapping r) x2) ->
  length (Renderer.w_avg st) = Renderer.w_dim r ->
  exists st' img,
    Renderer.call LabelEmbedding_call tensor4 ModulatedConv2D_call Noise_call
      Bias4_call LeakyReLU4_call Upscale2D_call add tile_const r d x training st
    = (st', Ok img) /\
    length (Renderer.w_avg st') = Renderer.w_dim r.
Proof.
  intros Hinit Hf Hx2 Hw Hw2 Hst.
  destruct (init_blocks_bound p r Hinit) as [Hs Hk].
  pose proof (init_n_broadcast Dense_call Bias_call LeakyReLU_call p r Hinit) as Hn.
  destruct (style_mixing_with_cutoff LabelEmbedding_call Dense_call Bias_call
              LeakyReLU_call p r d x x2 _ b _ Hinit Hx2 Hw Hw2)
    as (Hout & Hshape & _).
  apply has_shape3_rows in Hshape.
  destruct (synthesis_call_returns tensor4 ModulatedConv2D_call Noise_call Bias4_call
              LeakyReLU4_call Upscale2D_call add tile_const _ _ _ _ _ _ Hs Hshape)
    as (img & Himg); [lia|].
  unfold Renderer.call, Renderer.call_styles, Renderer.bind.
  rewrite Hf. cbn [negb].
  rewrite (update_ok r st _ b Hw) by (auto; lia).
  unfold Renderer.lift. rewrite Hout. unfold Renderer.ret. rewrite Himg.
  eexists. exists img. split; [reflexivity|].
  cbn [Renderer.w_avg]. rewrite length_map, length_seq. reflexivity.
Qed.
End ForwardReturns.

(** ** Synthesis: the names of the layers *)

Lemma string_of_uint_no_x (d : Decimal.uint) :
  no_x (NilEmpty.string_of_uint d) = true.
Proof. induction d; simpl; auto. Qed.

Lemma format_d_no_x (z : Z) : no_x (format_d z) = true.
Proof.
  unfold format_d, NilZero.string_of_int, NilZero.string_of_uint.
  destruct (Z.to_int z) as [d|d]; destruct d; simpl;
    try reflexivity; apply string_of_uint_no_x.
Qed.

Lemma format_d_inj (a b : Z) : format_d a = format_d b -> a = b.
Proof.
  unfold format_d. intros H.
  assert (Hnn : forall z, Z.to_int z <> Decimal.Pos Decimal.Nil /\
                          Z.to_int z <> Decimal.Neg Decimal.Nil).
  { intros [|q|q]; simpl; split; try discriminate;
      intros Hq; inversion Hq as [Hq']; exact (DecimalPos.Unsigned.to_uint_nonnil q Hq'). }
  apply DecimalZ.to_int_inj.
  assert (Hs : Some (Z.to_int a) = Some (Z.to_int b)).
  { rewrite <- (NilZero.isi (Z.to_int a)) by apply Hnn.
    rewrite <- (NilZero.isi (Z.to_int b)) by apply Hnn.
    rewrite H. reflexivity. }
  inversion Hs. reflexivity.
Qed.

Lemma prefix_x_inj (a b r1 r2 : string) :
  no_x a = true -> no_x b = true ->
  (a ++ String "x" r1)%string = (b ++ String "x" r2)%string -> a = b /\ r1 = r2.
Proof.
  revert b. induction a as [|c a IH]; intros [|c' b] Ha Hb H; simpl in *.
  - inversion H. auto.
  - inversion H; subst. simpl in Hb. discriminate.
  - inversion H; subst. simpl in Ha. discriminate.
  - inversion H; subst.
    apply andb_true_iff in Ha. apply andb_true_iff in Hb.
    destruct (IH b (proj2 Ha) (proj2 Hb) H2) as [-> ->]. auto.
Qed.

Lemma append_inj_l (a s1 s2 : string) : (a ++ s1)%string = (a ++ s2)%string -> s1 = s2.
Proof.
  induction a as [|c a IH]; simpl; intros H; [exact H|].
  inversion H. auto.
Qed.

Lemma res_name_inj (a b : Z) (s1 s2 : string) :
  Synthesis.res_name a s1 = Synthesis.res_name b s2 -> a = b /\ s1 = s2.
Proof.
  unfold Synthesis.res_name. cbn [String.append]. intros H.
  apply prefix_x_inj in H; try apply format_d_no_x.
  destruct H as [Hab Hrest]. apply format_d_inj in Hab. subst b.
  split; [reflexivity|]. exact (append_inj_l _ _ _ Hrest).
Qed.

Lemma stack_names (l : list (Z * Z)) :
  forall prev bs us ts,
    Synthesis.stack prev l = (bs, us, ts) ->
    map Synthesis.block_name bs
    = map (fun r => Synthesis.res_name r "/block") (map fst l) /\
    map Synthesis.torgb_name ts
    = map (fun r => Synthesis.res_name r "/ToRGB") (map fst l).
Proof.
  induction l as [|[res n_f] l IH]; intros prev bs us ts H; simpl in H.
  - inversion H. auto.
  - destruct (Synthesis.stack n_f l) as [[bs' us'] ts'] eqn:E.
    inversion H; subst. destruct (IH _ _ _ _ E) as [Hb Ht].
    simpl. rewrite Hb, Ht. auto.
Qed.

Lemma NoDup_fst_combine (a b : list Z) (x : Z) :
  NoDup (x :: a) -> NoDup (x :: map fst (combine a b)).
Proof.
  assert (Hin : forall (a b : list Z) (y : Z), In y (map fst (combine a b)) -> In y a).
  { clear. induction a as [|z a IH]; intros [|w b] y Hy; simpl in *;
      try contradiction. destruct Hy as [->|Hy]; [auto|right; eauto]. }
  assert (Hnd : forall a b : list Z, NoDup a -> NoDup (map fst (combine a b))).
  { clear x a b. induction a as [|z a IH]; intros [|w b] Ha; simpl;
      try constructor.
    - inversion Ha; subst. intros Hz. apply Hin in Hz. contradiction.
    - inversion Ha; subst. apply IH. assumption. }
  intros H. inversion H; subst. constructor.
  - intros Hx. apply Hin in Hx. contradiction.
  - apply Hnd. assumption.
Qed.

(** X17.  When the resolutions of the configuration are pairwise different,
    the scope names given to the const block, the ToRGB layers and the
    blocks of a built synthesis network are pairwise different. *)
Theorem layer_names_distinct (w_dim : nat) (resolutions featuremaps : list Z)
  (s : Synthesis.t) :
  Synthesis.init w_dim resolutions featuremaps = Ok s ->
  NoDup resolutions ->
  NoDup (layer_names s).
Proof.
  unfold Synthesis.init. intros H Hnd.
  destruct resolutions as [|res rest]; [discriminate|].
  destruct featuremaps as [|n_f fs]; [discriminate|].
  unfold Synthesis.SynthesisConstBlock_init in H.
  destruct (res =? 4)%Z; [|discriminate].
  cbn [rbind tl] in H.
  destruct (Synthesis.stack n_f (combine rest fs)) as [[bs us] ts] eqn:E.
  inversion H; subst; clear H.
  destruct (stack_names _ _ _ _ _ E) as [Hb Ht].
  unfold layer_names. cbn. rewrite Hb, Ht.
  apply (NoDup_fst_combine rest fs) in Hnd.
  set (rs := map fst (combine rest fs)) in *.
  inversion Hnd as [|? ? Hres Hrs]; subst.
  assert (Hmap : forall sfx (l : list Z),
            NoDup l -> NoDup (map (fun r => Synthesis.res_name r sfx) l)).
  { intros sfx l Hl. induction Hl as [|r l' Hr Hl' IH]; simpl.
    - constructor.
    - constructor; [|exact IH].
      intros Hin. apply in_map_iff in Hin. destruct Hin as (r' & Heq & Hr').
      apply res_name_inj in Heq. destruct Heq as [-> _]. contradiction. }
  assert (Hsfx : forall (r : Z) (s1 s2 : string) (l : list Z), s1 <> s2 ->
            ~ In (Synthesis.res_name r s1) (map (fun q => Synthesis.res_name q s2) l)).
  { intros r s1 s2 l Hne Hin. apply in_map_iff in Hin.
    destruct Hin as (q & Heq & _). apply res_name_inj in Heq.
    destruct Heq as [_ Heq]. congruence. }
  constructor; [|constructor].
  - intros [Heq|Hin].
    + apply res_name_inj in Heq. destruct Heq as [_ Heq]. discriminate.
    + apply in_app_or in Hin. destruct Hin as [Hin|Hin];
        revert Hin; apply (Hsfx res); discriminate.
  - intros Hin. apply in_app_or in Hin. destruct Hin as [Hin|Hin].
    + apply in_map_iff in Hin. destruct Hin as (q & Heq & Hq).
      apply res_name_inj in Heq. destruct Heq as [-> _]. contradiction.
    + revert Hin. apply (Hsfx res). discriminate.
  - assert (Happ : forall l1 l2 : list string,
              NoDup l1 -> NoDup l2 -> (forall a, In a l1 -> ~ In a l2) ->
              NoDup (l1 ++ l2)).
    { clear. induction l1 as [|a l1 IH]; intros l2 H1 H2 Hd; simpl; [exact H2|].
      inversion H1; subst. constructor.
      - intros Hin. apply in_app_or in Hin. destruct Hin as [Hin|Hin];
          [contradiction|]. apply (Hd a); simpl; auto.
      - apply IH; auto. intros b Hb. apply Hd. simpl; auto. }
    apply Happ; try (apply Hmap; exact Hrs).
    intros a Ha. apply in_map_iff in Ha. destruct Ha as (q & <- & _).
    apply (Hsfx q). discriminate.
Qed.

(** ** The mapping network feeds the synthesis network *)

Section MappingToSynthesis.
Variable LabelEmbedding_call : mat -> mat.
Variable Dense_call : nat -> mat -> mat.
Variable Bias_call : nat -> mat -> mat.
Variable LeakyReLU_call : nat -> mat -> mat.

Variable tensor4 : Type.
Variable ModulatedConv2D_call : string -> tensor4 -> mat -> tensor4.
Variable Noise_call : string -> tensor4 -> tensor4.
Variable Bias4_call : string -> tensor4 -> tensor4.
Variable LeakyReLU4_call : string -> tensor4 -> tensor4.
Variable Upscale2D_call : tensor4 -> tensor4.
Variable add : tensor4 -> tensor4 -> tensor4.
Variable tile_const : string -> nat -> tensor4.

(** X18.  Once construction has succeeded, for every input and whatever the
    layers compute, each sample of the output of the renderer's mapping
    network has the renderer's [n_broadcast] positions, and a forward pass
    of its synthesis network over that output returns an image: the two
    networks are built for one number of positions, also when the lists of
    the configuration differ in length. *)
Theorem mapping_feeds_synthesis (p : Renderer.g_params) (r : Renderer.t) (x : mat) :
  Renderer.init Dense_call Bias_call LeakyReLU_call p = Ok r ->
  let w := Mapping.call LabelEmbedding_call (Renderer.g_mapping r) x in
  Forall (fun row => length row = Renderer.n_broadcast r) w /\
  exists img,
    snd (Synthesis.call tensor4 ModulatedConv2D_call Noise_call Bias4_call
           LeakyReLU4_call Upscale2D_call add tile_const (Renderer.synthesis r) w)
    = Ok img.
Proof.
  intros Hinit w.
  destruct (init_blocks_bound Dense_call Bias_call LeakyReLU_call p r Hinit)
    as [Hs Hk].
  assert (Hn : Mapping.n_broadcast (Renderer.g_mapping r) = Renderer.n_broadcast r).
  { unfold Renderer.init in Hinit.
    destruct (Synthesis.init _ _ _); simpl in Hinit; [|discriminate].
    inversion Hinit; subst. reflexivity. }
  assert (Hw : Forall (fun row => length row = Renderer.n_broadcast r) w).
  { unfold w, Mapping.call, Mapping.broadcast. rewrite Hn.
    apply Forall_forall. intros row Hrow.
    apply in_map_iff in Hrow. destruct Hrow as (v & <- & _). apply repeat_length. }
  split; [exact Hw|].
  exact (synthesis_call_returns tensor4 ModulatedConv2D_call Noise_call Bias4_call
           LeakyReLU4_call Upscale2D_call add tile_const _ _ _ _ _ _ Hs Hw Hk).
Qed.
End MappingToSynthesis.

(** ** The further theorems at sample inputs *)

Lemma truncation_coefs_edges_witness :
  exists r,
    Renderer.init same_mat same_mat same_mat
      (small_params [4; 8]%Z (9 / 10) (Some 0%Z)) = Ok r /\
    Renderer.truncation_coefs r = [1; 1; 1; 1].
Proof.
  eexists. split; [reflexivity|].
  match goal with
  | |- Renderer.truncation_coefs ?r = _ =>
      exact (proj1 (proj2
               (truncation_coefs_edges same_mat same_mat same_mat
                  (small_params [4; 8]%Z (9 / 10) (Some 0%Z)) r eq_refl))
               0%Z eq_refl (Z.le_refl 0))
  end.
Defined.

Lemma style_mixing_by_cutoff_witness :
  exists r,
    Renderer.init same_mat same_mat same_mat (small_params [4; 8]%Z (9 / 10) None)
    = Ok r /\
    exists out,
      Renderer.style_mixing_regularization first_component r draws_demo x_hot w_demo
      = Ok out /\
      pos3 out 0 0 = [1].
Proof.
  eexists. split; [reflexivity|].
  match goal with
  | |- context [Renderer.style_mixing_regularization _ ?r] =>
      destruct (style_mixing_by_cutoff first_component same_mat same_mat same_mat
                  (small_params [4; 8]%Z (9 / 10) None) r draws_demo x_hot [[0; 1]]
                  w_demo 1 1 eq_refl
                  ltac:(split; simpl; [lra|lia]) eq_refl w_demo_shape
                  ltac:(apply mapping_demo_shape; try reflexivity; repeat constructor))
        as (out & Hcall & _ & _ & Hmix)
  end.
  exists out. split; [exact Hcall|].
  exact (proj1 (Hmix ltac:(simpl; lra) 0%nat Nat.lt_0_1)).
Defined.

Lemma mapping_wide_shape (n : nat) (m : Mapping.t) :
  Mapping.n_broadcast m = n ->
  Mapping.dense_layers m = map same_mat (seq 0 (Mapping.n_mapping m)) ->
  Mapping.bias_layers m = map same_mat (seq 0 (Mapping.n_mapping m)) ->
  Mapping.act_layers m = map same_mat (seq 0 (Mapping.n_mapping m)) ->
  has_shape3 1 n 2 (Mapping.call whole_sample m x_hot).
Proof.
  intros Hn Hd Hb Ha. unfold Mapping.call. rewrite Hd, Hb, Ha, Hn.
  assert (Hfold : forall k s (y : mat),
    fold_left
      (fun x0 '(dense, apply_bias, apply_act) => apply_act (apply_bias (dense x0)))
      (combine (combine (map same_mat (seq s k)) (map same_mat (seq s k)))
         (map same_mat (seq s k))) y = y).
  { induction k as [|k IH]; intros s y; simpl; [reflexivity|]. apply IH. }
  rewrite Hfold. split; [reflexivity|]. repeat constructor.
  - simpl. apply repeat_length.
  - apply Forall_forall. intros u Hu. apply repeat_spec in Hu. subst u. reflexivity.
Defined.

Lemma call_keeps_w_avg_shape_witness :
  exists r,
    Renderer.init same_mat same_mat same_mat (small_params [4; 8]%Z (9 / 10) None)
    = Ok r /\
    length (Renderer.w_avg
              (fst (Renderer.call first_component unit conv_unit same_unit same_unit
                      same_unit (fun y => y) add_unit tile_unit r draws_demo x_hot
                      (PyBool true) (Renderer.build r))))
    = 1%nat /\
    Renderer.call whole_sample unit conv_unit same_unit same_unit same_unit
      (fun y => y) add_unit tile_unit r draws_demo x_hot (PyBool true)
      (Renderer.build r)
    = (Renderer.build r, Raise ValueError).
Proof.
  eexists. split; [reflexivity|].
  match goal with
  | |- context [Renderer.build ?r] =>
      split;
      [ exact (proj1 (call_keeps_w_avg_shape first_component unit conv_unit same_unit
                        same_unit same_unit (fun y => y) add_unit tile_unit r
                        draws_demo x_hot (PyBool true) (Renderer.build r) 1 4 1
                        ltac:(apply mapping_demo_shape; try reflexivity;
                              repeat constructor)
                        Nat.lt_0_1 ltac:(lia) eq_refl))
      | exact (proj2 (proj2
                 (call_keeps_w_avg_shape whole_sample unit conv_unit same_unit
                    same_unit same_unit (fun y => y) add_unit tile_unit r
                    draws_demo x_hot (PyBool true) (Renderer.build r) 1 4 2
                    ltac:(apply mapping_wide_shape; reflexivity)
                    Nat.lt_0_1 ltac:(lia) eq_refl))
                 eq_refl ltac:(simpl; lia) ltac:(lia)) ]
  end.
Defined.

Lemma training_without_mixing_witness :
  exists r,
    Renderer.init same_mat same_mat same_mat (small_params [4; 8]%Z 0 None) = Ok r /\
    snd (Renderer.call_styles first_component r draws_demo x_hot (PyBool true)
           (Renderer.build r))
    = Ok (Mapping.call first_component (Renderer.g_mapping r) x_hot).
Proof.
  eexists. split; [reflexivity|].
  match goal with
  | |- context [Renderer.build ?r] =>
      exact (training_without_mixing first_component same_mat same_mat same_mat
               (small_params [4; 8]%Z 0 None) r draws_demo x_hot [[0; 1]]
               (PyBool true) (Renderer.build r) 1 eq_refl eq_refl
               ltac:(simpl; lra) eq_refl
               ltac:(apply mapping_demo_shape; try reflexivity; repeat constructor)
               ltac:(apply mapping_demo_shape; try reflexivity; repeat constructor)
               eq_refl)
  end.
Defined.

Lemma synthesis_init_channels_witness :
  exists s,
    Synthesis.init 1 [4; 8; 16]%Z [512; 256]%Z = Ok s /\
    length (Synthesis.blocks s) = 1%nat /\
    forall blk, nth_error (Synthesis.blocks s) 0 = Some blk ->
                Synthesis.block_in_channel blk = 512%Z.
Proof.
  eexists. split; [reflexivity|].
  match goal with
  | |- length (Synthesis.blocks ?s) = _ /\ _ =>
      destruct (synthesis_init_channels 1 [4; 8; 16]%Z [512; 256]%Z s eq_refl)
        as (Hlen & _ & _ & _ & _ & _ & Hk)
  end.
  split; [exact Hlen|].
  intros blk Hblk. exact (proj1 (Hk 0%nat blk _ Hblk eq_refl)).
Defined.

Lemma synthesis_call_needs_positions_witness :
  exists s,
    Synthesis.init 1 [4; 8]%Z [512; 256]%Z = Ok s /\
    snd (Synthesis.call unit conv_unit same_unit same_unit same_unit (fun y => y)
           add_unit tile_unit s [[[1]; [2]; [3]]])
    = Raise InvalidArgumentError.
Proof.
  eexists. split; [reflexivity|].
  match goal with
  | |- snd (Synthesis.call _ _ _ _ _ _ _ _ ?s _) = _ =>
      exact (proj2 (synthesis_call_needs_positions unit conv_unit same_unit same_unit
                      same_unit (fun y => y) add_unit tile_unit 1 [4; 8]%Z
                      [512; 256]%Z s [[[1]; [2]; [3]]] 3 eq_refl
                      ltac:(discriminate) ltac:(repeat constructor))
               ltac:(simpl; lia))
  end.
Defined.

Lemma ema_sync_keeps_names_shapes_witness :
  map Ema.name
    (Ema.trainable_weights
       (fst (Ema.set_as_moving_average_of target_weights source_weights (1 / 2) 0)))
  = ["renderer/g_mapping/dense_0/w:0"; "renderer/g_mapping/extra/w:0"]%string.
Proof.
  exact (proj1 (ema_sync_keeps_names_shapes target_weights source_weights (1 / 2) 0)).
Defined.

Lemma ema_sync_stops_at_mismatch_witness :
  snd (Ema.set_as_moving_average_of target_weights late_mismatch_source (1 / 2) 0)
  = Raise AssertionError /\
  map Ema.value
    (Ema.trainable_weights
       (fst (Ema.set_as_moving_average_of target_weights late_mismatch_source
               (1 / 2) 0)))
  = [[2; 3]; [7]] /\
  map Ema.value
    (Ema.non_trainable_weights
       (fst (Ema.set_as_moving_average_of target_weights late_mismatch_source
               (1 / 2) 0)))
  = [[1]].
Proof.
  assert (L : lerp 3 1 (1 / 2) = 2 /\ lerp 4 2 (1 / 2) = 3)
    by (unfold lerp; split; lra).
  destruct L as [L1 L2].
  rewrite (ema_sync_stops_at_mismatch target_weights late_mismatch_source
             [ {| Ema.name := "renderer/g_mapping/dense_0/w:0";
                  Ema.shape := [2%nat]; Ema.value := [1; 2] |} ]
             []
             {| Ema.name := "renderer/g_mapping/extra/w:0";
                Ema.shape := [1%nat]; Ema.value := [7] |}
             {| Ema.name := "renderer_1/g_mapping/extra/w:0";
                Ema.shape := [2%nat]; Ema.value := [8; 9] |}
             (1 / 2) 0 eq_refl).
  - split; [reflexivity|]. simpl. rewrite L1, L2. split; reflexivity.
  - intros cw sw [<-|[]] Hm. simpl in Hm. inversion Hm. reflexivity.
  - reflexivity.
  - simpl. discriminate.
Defined.

Lemma split_first_name_edges_witness :
  Ema.split_first_name "w_avg:0" = ""%string.
Proof.
  exact (proj1 (proj2 split_first_name_edges) "w_avg:0"%string eq_refl).
Defined.

Lemma synthesis_call_depends_on_prefix_witness :
  exists s,
    Synthesis.init 1 [4; 8]%Z [512; 256]%Z = Ok s /\
    Synthesis.call unit conv_unit same_unit same_unit same_unit (fun y => y)
      add_unit tile_unit s w_demo
    = Synthesis.call unit conv_unit same_unit same_unit same_unit (fun y => y)
        add_unit tile_unit s w_demo_longer.
Proof.
  eexists. split; [reflexivity|].
  match goal with
  | |- Synthesis.call _ _ _ _ _ _ _ _ ?s _ = _ =>
      apply (synthesis_call_depends_on_prefix unit conv_unit same_unit same_unit
               same_unit (fun y => y) add_unit tile_unit 1 [4; 8]%Z [512; 256]%Z s
               w_demo w_demo_longer eq_refl)
  end.
  intros i Hi. simpl in Hi.
  destruct i as [|[|[|[|i]]]]; try reflexivity. lia.
Defined.

Lemma inference_call_returns_witness :
  exists r,
    Renderer.init same_mat same_mat same_mat (small_params [4; 8]%Z (9 / 10) None)
    = Ok r /\
    exists img,
      Renderer.call first_component unit conv_unit same_unit same_unit same_unit
        (fun y => y) add_unit tile_unit r draws_demo x_hot PyNone (Renderer.build r)
      = (Renderer.build r, Ok img).
Proof.
  eexists. split; [reflexivity|].
  match goal with
  | |- context [Renderer.build ?r] =>
      exact (inference_call_returns first_component same_mat same_mat same_mat unit
               conv_unit same_unit same_unit same_unit (fun y => y) add_unit
               tile_unit (small_params [4; 8]%Z (9 / 10) None) r draws_demo x_hot
               PyNone (Renderer.build r) 1 eq_refl eq_refl
               ltac:(apply mapping_demo_shape; try reflexivity; repeat constructor)
               eq_refl)
  end.
Defined.

Lemma training_call_returns_witness :
  exists r,
    Renderer.init same_mat same_mat same_mat (small_params [4; 8]%Z (9 / 10) None)
    = Ok r /\
    exists st' img,
      Renderer.call first_component unit conv_unit same_unit same_unit same_unit
        (fun y => y) add_unit tile_unit r draws_demo x_hot (PyBool true)
        (Renderer.build r)
      = (st', Ok img) /\
      length (Renderer.w_avg st') = 1%nat.
Proof.
  eexists. split; [reflexivity|].
  match goal with
  | |- context [Renderer.build ?r] =>
      exact (training_call_returns first_component same_mat same_mat same_mat unit
               conv_unit same_unit same_unit same_unit (fun y => y) add_unit
               tile_unit (small_params [4; 8]%Z (9 / 10) None) r draws_demo x_hot
               [[0; 1]] (PyBool true) (Renderer.build r) 1 eq_refl eq_refl eq_refl
               ltac:(apply mapping_demo_shape; try reflexivity; repeat constructor)
               ltac:(apply mapping_demo_shape; try reflexivity; repeat constructor)
               eq_refl)
  end.
Defined.

Lemma layer_names_distinct_witness :
  exists s,
    Synthesis.init 1 [4; 8]%Z [512; 256]%Z = Ok s /\ NoDup (layer_names s).
Proof.
  eexists. split; [reflexivity|].
  match goal with
  | |- NoDup (layer_names ?s) =>
      apply (layer_names_distinct 1 [4; 8]%Z [512; 256]%Z s eq_refl)
  end.
  constructor; [|constructor; [|constructor]]; simpl; intuition discriminate.
Defined.

Lemma mapping_feeds_synthesis_witness :
  exists r,
    Renderer.init same_mat same_mat same_mat (small_params [4; 8]%Z (9 / 10) None)
    = Ok r /\
    exists img,
      snd (Synthesis.call unit conv_unit same_unit same_unit same_unit (fun y => y)
             add_unit tile_unit (Renderer.synthesis r)
             (Mapping.call first_component (Renderer.g_mapping r) x_hot))
      = Ok img.
Proof.
  eexists. split; [reflexivity|].
  match goal with
  | |- context [Renderer.synthesis ?r] =>
      exact (proj2 (mapping_feeds_synthesis first_component same_mat same_mat same_mat
                      unit conv_unit same_unit same_unit same_unit (fun y => y)
                      add_unit tile_unit (small_params [4; 8]%Z (9 / 10) None) r
                      x_hot eq_refl))
  end.
Defined.
